(** * Incucyte timecourse plotter: normalisation and aggregation

    A shallow embedding of [incucyte_plotter_app.py]: the helpers
    [_coerce_time] and [_base_group_name], the normaliser
    [read_incucyte_csv] and the aggregator [aggregate_mean_sd].

    Conventions of the model.
    - Text is [string] (one-byte characters); [str.lower] and the digit
      classes act on ASCII.
    - A number is a [float]: an exact rational, an infinity or NaN.  NaN is
      pandas' missing marker.  Rounding of binary floating point is not
      modelled: arithmetic on finite values is exact, and a standard
      deviation is the exact root of an exact variance.
    - A frame as [pd.read_csv] delivers it is a header and its rows; a row
      shorter than the header reads as NaN in the columns it lacks.
    - pandas' conversion of a text to a number and Python's rendering of a
      float as text belong to the libraries, not to the program: they are
      variables of the section that holds the normaliser. *)

From Stdlib Require Import QArith Qround Qreduction Ascii Reals Qreals Psatz.
From Stdlib Require OrderedTypeEx Sorted.
From Stdlib Require String.
From stdpp Require Import gmap strings list fin_maps pretty.

Local Open Scope char_scope.

(** * The model *)

(** ** Characters and text *)

Definition is_digit (c : ascii) : bool := ("0" <=? c) && (c <=? "9").

Definition line_feed : ascii := "010".

Definition is_upper (c : ascii) : bool := ("A" <=? c) && (c <=? "Z").

Definition lower_char (c : ascii) : ascii :=
  if is_upper c then ascii_of_nat (nat_of_ascii c + 32) else c.

Local Close Scope char_scope.

(** [str.lower()] *)
Fixpoint lower (s : string) : string :=
  match s with
  | EmptyString => EmptyString
  | String c s' => String (lower_char c) (lower s')
  end.

Fixpoint all_digits (s : string) : bool :=
  match s with
  | EmptyString => true
  | String c s' => is_digit c && all_digits s'
  end.

(** [\d+] (or [[0-9]+]) against a whole text. *)
Definition digits1 (s : string) : bool :=
  match s with
  | EmptyString => false
  | String _ _ => all_digits s
  end.

Fixpoint has_char (c : ascii) (s : string) : bool :=
  match s with
  | EmptyString => false
  | String c' s' => Ascii.eqb c' c || has_char c s'
  end.

(** The longest run of digits a text starts with, and what follows it. *)
Fixpoint span_digits (s : string) : string * string :=
  match s with
  | EmptyString => (EmptyString, EmptyString)
  | String c s' =>
      if is_digit c
      then let '(d, r) := span_digits s' in (String c d, r)
      else (EmptyString, s)
  end.

(** Removes the line feed a text ends with, if it ends with one. *)
Fixpoint chomp (s : string) : string :=
  match s with
  | EmptyString => EmptyString
  | String c s' =>
      match s' with
      | EmptyString => if Ascii.eqb c line_feed then EmptyString else s
      | String _ _ => String c (chomp s')
      end
  end.

(** ** The replicate-suffix pattern

    The pattern of the source reads: start of text, group 1 = any run of
    characters other than a line feed (greedy), an underscore, group 2 = one
    of [R\d+], [Rep\d+], [rep\d+], end of text. *)

(** [R\d+|Rep\d+|rep\d+] against a whole text. *)
Definition is_replicate_tag (t : string) : bool :=
  match t with
  | String "R" d =>
      digits1 d
      || match d with
         | String "e" (String "p" d') => digits1 d'
         | _ => false
         end
  | String "r" (String "e" (String "p" d)) => digits1 d
  | _ => false
  end.

(** [_(R\d+|Rep\d+|rep\d+)$] against the rest of the text.  Python's [$]
    stands at the end of the text and also just before a line feed that
    ends it; the tag itself holds no line feed. *)
Definition tail_tag (rest : string) : option string :=
  match rest with
  | String "_" t =>
      let tag := chomp t in
      if is_replicate_tag tag then Some tag else None
  | _ => None
  end.

(** The whole pattern, anchored at the start.  Group 1 is greedy and does not
    cross a line feed: at each character it first tries to take it, and only
    when the rest then fails does it stop there. *)
Fixpoint match_replicate_suffix (s : string) : option (string * string) :=
  match s with
  | EmptyString => None
  | String c s' =>
      match (if Ascii.eqb c line_feed then None
             else match_replicate_suffix s') with
      | Some (b, t) => Some (String c b, t)
      | None =>
          match tail_tag s with
          | Some t => Some (EmptyString, t)
          | None => None
          end
      end
  end.

(** [_base_group_name] *)
Definition _base_group_name (colname : string) : string :=
  match match_replicate_suffix colname with
  | Some (b, _) => b
  | None => colname
  end.

(** ** The number pattern

    The pattern of the source reads: any run of digits [0-9] (greedy), an
    optional point, at least one digit [0-9]. *)

(** The pattern anchored at the start of [s].  The first run takes the longest
    run of digits; if a point and at least one digit follow, they are part
    of the match; otherwise the engine gives the last digit of the run back
    to the closing [[0-9]+], and the match is the run itself, which must not be empty. *)
Definition match_number (s : string) : option string :=
  let '(d, r) := span_digits s in
  let whole :=
    match r with
    | String "." r' =>
        let '(d2, _) := span_digits r' in
        match d2 with
        | EmptyString => None
        | String _ _ => Some (d +:+ String "." d2)
        end
    | _ => None
    end in
  match whole with
  | Some m => Some m
  | None =>
      match d with
      | EmptyString => None
      | String _ _ => Some d
      end
  end.

(** [re.search]: the match at the first position that has one. *)
Fixpoint search_number (s : string) : option string :=
  match match_number s with
  | Some m => Some m
  | None =>
      match s with
      | EmptyString => None
      | String _ s' => search_number s'
      end
  end.

(** ** Numbers, cells and frames *)

(** A float of the program: a finite value, an infinity, or NaN (missing). *)
Inductive float : Type :=
  | Fin (q : Q)
  | PInf
  | NInf
  | NaN.

(** [Series.notna] on one value: only NaN counts as missing. *)
Definition notna (x : float) : bool :=
  match x with
  | NaN => false
  | _ => true
  end.


(** A cell of a frame read from CSV: an integer, a float (NaN where the file
    has nothing), or a text. *)
Inductive cell : Type :=
  | CInt (z : Z)
  | CNum (x : float)
  | CStr (s : string).

(** The frame [pd.read_csv] returns: its labels left to right and its rows. *)
Record DataFrame : Type := mkFrame {
  columns : list string;
  rows : list (list cell)
}.

(** The cell of row [r] in the column at position [j]. *)
Definition cell_at (j : nat) (r : list cell) : cell :=
  default (CNum NaN) (r !! j).

Definition column_at (j : nat) (data : list (list cell)) : list cell :=
  map (cell_at j) data.

(** The positions at which [labels] holds [name]. *)
Fixpoint positions_from (i : nat) (name : string) (labels : list string)
  : list nat :=
  match labels with
  | [] => []
  | c :: cs =>
      if decide (c = name) then i :: positions_from (S i) name cs
      else positions_from (S i) name cs
  end.

Definition positions (name : string) (labels : list string) : list nat :=
  positions_from 0 name labels.

(** One observation of the tidy table, over the numbers [N]. *)
Record Obs (N : Type) : Type := mkObs {
  time : N;
  group : string;
  replicate : string;
  value : N
}.
Arguments mkObs {N} _ _ _ _.
Arguments time {N} _.
Arguments group {N} _.
Arguments replicate {N} _.
Arguments value {N} _.

(** The tidy table the normaliser returns.  On the wide path [group] is an
    ordered categorical and [group_categories] holds its categories; on the
    tidy path it is plain text. *)
Record TidyTable : Type := mkTidy {
  group_categories : option (list string);
  records : list (Obs float)
}.

(** What a run of the normaliser ends in. *)
Inductive error : Type :=
  | ValueError (msg : string)
  | KeyError (label : string)
  | DuplicateLabel (label : string).

Inductive result (A : Type) : Type :=
  | Ok (a : A)
  | Err (e : error).
Arguments Ok {A} _.
Arguments Err {A} _.

#[global] Instance result_bind : MBind result :=
  fun A B (k : A -> result B) (r : result A) =>
    match r with
    | Ok a => k a
    | Err e => Err e
    end.

(** ** Format detection *)

(** [lower_map = {c.lower(): c for c in df.columns}]: a later column
    replaces an earlier one with the same lower-case name. *)
Definition lower_map (cols : list string) : gmap string string :=
  foldl (fun m c => <[lower c := c]> m) ∅ cols.

(** [cols_lower = set(lower_map.keys())] *)
Definition cols_lower (cols : list string) : gset string :=
  dom (lower_map cols).

Definition replicate_triple : gset string := {[ "group"; "replicate"; "value" ]}.

Definition required : gset string := {[ "time"; "group"; "value" ]}.

Inductive layout : Type :=
  | WIDE
  | TIDY
  | Undetected.

(** The two tests of [read_incucyte_csv], in the order of the source. *)
Definition detect_layout (cols : list string) : layout :=
  let cl := cols_lower cols in
  if bool_decide ("time" ∈ cl) && negb (bool_decide (replicate_triple ⊆ cl))
  then WIDE
  else if bool_decide (required ⊆ cl) then TIDY
  else Undetected.

Definition detection_message : string :=
  "Could not detect wide or tidy format. Need either:"
  +:+ String line_feed "  Wide: 'time' + one column per group"
  +:+ String line_feed "  Tidy: time, group, (replicate), value".

(** ** The normaliser *)

Section Normaliser.

(** [pd.to_numeric(..., errors="coerce")] on one text: its number, NaN when
    pandas does not read it as one. *)
Variable to_float : string -> float.

(** Python's [str] of a float. *)
Variable float_str : float -> string.

(** [pd.to_numeric(..., errors="coerce")] on one cell. *)
Definition to_numeric (c : cell) : float :=
  match c with
  | CInt z => Fin (inject_Z z)
  | CNum x => x
  | CStr s => to_float s
  end.

(** [astype(str)] on one cell. *)
Definition cell_str (c : cell) : string :=
  match c with
  | CInt z => pretty z
  | CNum x => float_str x
  | CStr s => s
  end.

(** The fallback of [_coerce_time] on one cell: the first match of the number
    pattern in the text of the cell, read as a number; NaN without a match. *)
Definition extract_number (c : cell) : float :=
  match search_number (cell_str c) with
  | Some m => to_float m
  | None => NaN
  end.

(** [_coerce_time] *)
Definition _coerce_time (col : list cell) : list float :=
  let c := map to_numeric col in
  if forallb notna c then c
  else map extract_number col.

(** A row of the frame [melt] returns: columns [time], [col], [value]. *)
Record LongRow : Type := mkLong {
  l_time : cell;
  l_col : string;
  l_value : cell
}.

(** The labels of [labels], each with its position. *)
Definition indexed (labels : list string) : list (nat * string) :=
  zip (seq 0 (length labels)) labels.

(** [df.melt(id_vars=id_var, value_vars=value_vars, var_name="col",
    value_name="value")].  pandas (from version 2) refuses a frame that
    already has a column labelled [value]; an identifier label that names
    several columns does not select one.  The value columns are taken in frame order, each with
    all its rows. *)
Definition melt (labels : list string) (data : list (list cell))
    (id_var : string) (value_vars : list string) : result (list LongRow) :=
  if decide ("value" ∈ labels)
  then Err (ValueError
    "value_name (value) cannot match an element in the DataFrame columns.")
  else
    match positions id_var labels with
    | [i] =>
        Ok (flat_map
              (fun jc : nat * string =>
                 map (fun r => mkLong (cell_at i r) jc.2 (cell_at jc.1 r)) data)
              (filter (fun jc : nat * string => jc.2 ∈ value_vars)
                      (indexed labels)))
    | [] => Err (KeyError id_var)
    | _ => Err (DuplicateLabel id_var)
    end.

(** [np.where(has_rep, m[0], long["col"])] *)
Definition wide_group (col : string) : string :=
  match match_replicate_suffix col with
  | Some (b, _) => b
  | None => col
  end.

(** [np.where(has_rep, m[1], "R1")] *)
Definition wide_replicate (col : string) : string :=
  match match_replicate_suffix col with
  | Some (_, t) => t
  | None => "R1"
  end.

(** The loop that collects [group_order], with its set [seen]. *)
Definition group_order_step (st : list string * gset string) (c : string)
  : list string * gset string :=
  let base := _base_group_name c in
  if decide (base ∈ st.2) then st
  else (st.1 ++ [base], {[ base ]} ∪ st.2).

Definition group_order (value_cols_in_order : list string) : list string :=
  (foldl group_order_step ([], ∅) value_cols_in_order).1.

(** [dropna(subset=["time", "value"])] on one record. *)
Definition resolved (o : Obs float) : bool := notna (time o) && notna (value o).

(** [df.rename(columns=...)] for one pair. *)
Definition rename_label (old new : string) (labels : list string)
  : list string :=
  map (fun c => if decide (c = old) then new else c) labels.

(** The wide branch.  Every group the branch produces is one of the
    categories (lemma [wide_group_in_order] below), so the categorical
    conversion leaves no group missing. *)
Definition read_wide (df : DataFrame) : result TidyTable :=
  match lower_map (columns df) !! "time" with
  | None => Err (KeyError "time")
  | Some time_col =>
      let value_cols_in_order :=
        filter (fun c => c ≠ time_col) (columns df) in
      let labels := rename_label time_col "time" (columns df) in
      long ← melt labels (rows df) "time" value_cols_in_order;
      let times := _coerce_time (map l_time long) in
      let recs :=
        zip_with
          (fun t (r : LongRow) =>
             mkObs t (wide_group (l_col r)) (wide_replicate (l_col r))
                   (to_numeric (l_value r)))
          times long in
      Ok (mkTidy (Some (group_order value_cols_in_order))
                 (filter (fun o => resolved o = true) recs))
  end.

(** [df[name]]: the column with that label, when there is exactly one. *)
Definition get_column (labels : list string) (data : list (list cell))
    (name : string) : result (list cell) :=
  match positions name labels with
  | [j] => Ok (column_at j data)
  | [] => Err (KeyError name)
  | _ => Err (DuplicateLabel name)
  end.

(** The renaming of the tidy branch: the column that [lower_map] gives for
    each required name present is renamed to that name. *)
Definition required_renaming (lm : gmap string string) : gmap string string :=
  foldr (fun k acc =>
           match lm !! k with
           | Some v => <[v := k]> acc
           | None => acc
           end)
        ∅ ["time"; "group"; "value"].

Definition rename (f : gmap string string) (labels : list string)
  : list string :=
  map (fun c => default c (f !! c)) labels.

(** The four columns of a tidy frame, row by row. *)
Fixpoint zip4 (ts : list float) (gs rs : list string) (vs : list float)
  : list (Obs float) :=
  match ts, gs, rs, vs with
  | t :: ts', g :: gs', r :: rs', v :: vs' =>
      mkObs t g r v :: zip4 ts' gs' rs' vs'
  | _, _, _, _ => []
  end.

(** The tidy branch.  A selected label that names several columns yields no
    tidy table: the run ends in [DuplicateLabel]. *)
Definition read_tidy (df : DataFrame) : result TidyTable :=
  let lm := lower_map (columns df) in
  let labels1 := rename (required_renaming lm) (columns df) in
  let labels2 :=
    match lm !! "replicate" with
    | None => labels1
    | Some rep_col => rename_label rep_col "replicate" labels1
    end in
  time_c ← get_column labels2 (rows df) "time";
  group_c ← get_column labels2 (rows df) "group";
  rep_c ← (match lm !! "replicate" with
           | None => Ok (map (fun _ => CStr "R1") (rows df))
           | Some _ => get_column labels2 (rows df) "replicate"
           end);
  value_c ← get_column labels2 (rows df) "value";
  let recs :=
    zip4 (_coerce_time time_c) (map cell_str group_c) (map cell_str rep_c)
         (map to_numeric value_c) in
  Ok (mkTidy None (filter (fun o => resolved o = true) recs)).

(** [read_incucyte_csv], from the frame [pd.read_csv] returned. *)
Definition read_incucyte_csv (df : DataFrame) : result TidyTable :=
  match detect_layout (columns df) with
  | WIDE => read_wide df
  | TIDY => read_tidy df
  | Undetected => Err (ValueError detection_message)
  end.

End Normaliser.

(** ** A reading of numbers for the examples

    Plain decimal notation: an optional sign, digits, an optional point and
    more digits.  Both pandas and this reading give such a text its decimal
    value; every other text is NaN here. *)

Fixpoint digits_value (acc : Z) (s : string) : Z :=
  match s with
  | EmptyString => acc
  | String c s' =>
      digits_value (10 * acc + Z.of_nat (nat_of_ascii c - 48)) s'
  end.

Definition decimal_value (i f : string) : Q :=
  Qred (Qmake (digits_value 0 (i +:+ f))
              (Z.to_pos (10 ^ Z.of_nat (String.length f)))).

Definition unsigned_decimal (s : string) : option Q :=
  let '(i, r) := span_digits s in
  match r with
  | EmptyString =>
      match i with
      | EmptyString => None
      | String _ _ => Some (decimal_value i EmptyString)
      end
  | String "." r' =>
      let '(f, r'') := span_digits r' in
      match r'', i +:+ f with
      | EmptyString, String _ _ => Some (decimal_value i f)
      | _, _ => None
      end
  | _ => None
  end.

Definition plain_decimal (s : string) : float :=
  match s with
  | String "-" s' =>
      match unsigned_decimal s' with
      | Some q => Fin (Qred (- q))
      | None => NaN
      end
  | String "+" s' =>
      match unsigned_decimal s' with
      | Some q => Fin q
      | None => NaN
      end
  | _ =>
      match unsigned_decimal s with
      | Some q => Fin q
      | None => NaN
      end
  end.

Fixpoint frac_digits (fuel : nat) (num den : Z) : string :=
  match fuel with
  | O => EmptyString
  | S n =>
      if (num =? 0)%Z then EmptyString
      else pretty (10 * num / den)%Z +:+ frac_digits n (10 * num mod den)%Z den
  end.

Definition plain_str (x : float) : string :=
  match x with
  | NaN => "nan"
  | PInf => "inf"
  | NInf => "-inf"
  | Fin q =>
      let n := Z.abs (Qnum q) in
      let d := Zpos (Qden q) in
      let f := frac_digits 17 (n mod d)%Z d in
      (if (Qnum q <? 0)%Z then "-" else "")
      +:+ pretty (n / d)%Z +:+ "."
      +:+ match f with EmptyString => "0" | String _ _ => f end
  end.

(** ** The aggregator

    The aggregator is given a tidy table as the specification describes it:
    finite numbers for [time] and [value], text for [group].  Its rows are
    [Obs Q].  [groupby] forms one group per key that occurs in the table and
    returns the groups sorted by key. *)

(** A standard deviation is kept as the root of its (rational) variance;
    [root_value] is the real number it stands for. *)
Record Root : Type := Sqrt {
  radicand : Q
}.


(** A row of the stats table: columns [group], [time], [mean], [sd], [n];
    [st_sd = None] is pandas' null. *)
Record Stats : Type := mkStats {
  st_group : string;
  st_time : Q;
  st_mean : Q;
  st_sd : option Root;
  st_n : nat
}.

Definition key : Type := string * Q.

Definition key_eqb (k1 k2 : key) : bool :=
  String.eqb k1.1 k2.1 && Qeq_bool k1.2 k2.2.

Definition key_leb (k1 k2 : key) : bool :=
  match String.compare k1.1 k2.1 with
  | Lt => true
  | Eq => Qle_bool k1.2 k2.2
  | Gt => false
  end.

(** [interval_hours > 0] *)
Definition positive_interval (h : Q) : bool := negb (Qle_bool h 0%Q).

(** [np.floor(time / interval_hours) * interval_hours] *)
Definition time_bin (interval_hours t : Q) : Q :=
  Qred (inject_Z (Qfloor (t / interval_hours)) * interval_hours)%Q.

(** The keys of a list, each once, in the order of first occurrence. *)
Fixpoint distinct_keys (ks : list key) : list key :=
  match ks with
  | [] => []
  | k :: ks' =>
      k :: filter (fun k' => key_eqb k k' = false) (distinct_keys ks')
  end.

Fixpoint insert_key (k : key) (ks : list key) : list key :=
  match ks with
  | [] => [k]
  | k' :: ks' =>
      if key_leb k k' then k :: ks else k' :: insert_key k ks'
  end.

Definition sort_keys (ks : list key) : list key := foldr insert_key [] ks.

(** The values of the rows whose key is [k], in row order. *)
Definition values_of (k : key) (keyed : list (key * Q)) : list Q :=
  map snd (filter (fun p : key * Q => key_eqb p.1 k = true) keyed).

Definition Qsum (vs : list Q) : Q := foldr Qplus 0%Q vs.

(** [mean] *)
Definition mean (vs : list Q) : Q :=
  Qred (Qsum vs / inject_Z (Z.of_nat (length vs)))%Q.

(** The sample variance (one degree of freedom removed). *)
Definition variance (vs : list Q) : Q :=
  let m := mean vs in
  Qred (Qsum (map (fun v => (v - m) * (v - m))%Q vs)
        / inject_Z (Z.of_nat (length vs) - 1))%Q.

(** [std]: null unless at least two values contribute. *)
Definition std (vs : list Q) : option Root :=
  if decide (length vs ≤ 1)%nat then None else Some (Sqrt (variance vs)).

(** [groupby(keys)["value"].agg(mean="mean", sd="std", n="count")] over rows
    given with their keys. *)
Definition agg (keyed : list (key * Q)) : list Stats :=
  map (fun k : key =>
         let vs := values_of k keyed in
         mkStats k.1 k.2 (mean vs) (std vs) (length vs))
      (sort_keys (distinct_keys (map fst keyed))).

(** The time column the grouping uses: [time_bin] when an interval is given
    and positive, [time] otherwise. *)
Definition grouping_time (interval_hours : option Q) (t : Q) : Q :=
  match interval_hours with
  | Some h => if positive_interval h then time_bin h t else t
  | None => t
  end.

(** [aggregate_mean_sd], as a function of the rows of its argument. *)
Definition aggregate_mean_sd (df : list (Obs Q)) (interval_hours : option Q)
  : list Stats :=
  agg (map (fun o => ((group o, grouping_time interval_hours (time o)),
                      value o)) df).

(** The rows of a table the normaliser returned, when all its numbers are
    finite: the table the application passes to the aggregator. *)
Definition finite_obs (o : Obs float) : option (Obs Q) :=
  match time o, value o with
  | Fin t, Fin v => Some (mkObs t (group o) (replicate o) v)
  | _, _ => None
  end.

Definition finite_rows (t : TidyTable) : option (list (Obs Q)) :=
  mapM finite_obs (records t).

(** ** The aggregator on shared frames

    A frame is an object of the heap: a dictionary from labels to columns.
    [aggregate_mean_sd] receives a reference, copies the frame, may add the
    column [time_bin] to the copy, and groups the copy. *)

Inductive Column : Type :=
  | FloatCol (xs : list Q)
  | TextCol (xs : list string).

Definition floats_of (c : Column) : option (list Q) :=
  match c with
  | FloatCol xs => Some xs
  | TextCol _ => None
  end.

Definition texts_of (c : Column) : option (list string) :=
  match c with
  | TextCol xs => Some xs
  | FloatCol _ => None
  end.

(** The frame object that holds a tidy table. *)
Definition frame_of (df : list (Obs Q)) : gmap string Column :=
  <["time" := FloatCol (map time df)]>
  (<["group" := TextCol (map group df)]>
  (<["replicate" := TextCol (map replicate df)]>
  (<["value" := FloatCol (map value df)]> ∅))).

(** A computation on the heap that may fail. *)
Definition Heap (A : Type) : Type :=
  gmap positive (gmap string Column) -> option (A * gmap positive (gmap string Column)).

#[global] Instance heap_ret : MRet Heap := fun A a h => Some (a, h).

#[global] Instance heap_bind : MBind Heap :=
  fun A B (k : A -> Heap B) (m : Heap A) h =>
    match m h with
    | Some (a, h') => k a h'
    | None => None
    end.

(** [df.copy()]: a new object with the same columns. *)
Definition frame_copy (l : positive) : Heap positive :=
  fun h =>
    match h !! l with
    | Some f => let l' := fresh (dom h) in Some (l', <[l' := f]> h)
    | None => None
    end.

(** [d[label] = col]: the object at [l] is changed in place. *)
Definition frame_set (l : positive) (label : string) (col : Column)
  : Heap unit :=
  fun h =>
    match h !! l with
    | Some f => Some (tt, <[l := <[label := col]> f]> h)
    | None => None
    end.

(** [d[label]] *)
Definition frame_get (l : positive) (label : string) : Heap Column :=
  fun h =>
    match h !! l with
    | Some f =>
        match f !! label with
        | Some c => Some (c, h)
        | None => None
        end
    | None => None
    end.

Definition heap_lift {A : Type} (o : option A) : Heap A :=
  fun h =>
    match o with
    | Some a => Some (a, h)
    | None => None
    end.

(** [aggregate_mean_sd] on a reference to its argument. *)
Definition aggregate_mean_sd_heap (df : positive) (interval_hours : option Q)
  : Heap (list Stats) :=
  d ← frame_copy df;
  time_col ←
    (match interval_hours with
     | Some h =>
         if positive_interval h then
           tc ← frame_get d "time";
           ts ← heap_lift (floats_of tc);
           _ ← frame_set d "time_bin" (FloatCol (map (time_bin h) ts));
           mret "time_bin"
         else mret "time"
     | None => mret "time"
     end);
  gc ← frame_get d "group";
  gs ← heap_lift (texts_of gc);
  tc ← frame_get d time_col;
  ts ← heap_lift (floats_of tc);
  vc ← frame_get d "value";
  vs ← heap_lift (floats_of vc);
  mret (agg (zip (zip gs ts) vs)).

(** ** The script around the two functions

    The part of the application that prepares what is drawn: the interval
    handed to the aggregator, the table of groups with its default colours,
    the join of that table onto the stats, and the legend with one entry per
    label. *)

(** [interval_hours = interval if interval > 0 else None] *)
Definition interval_setting (interval : Q) : option Q :=
  if positive_interval interval then Some interval else None.

Definition default_colors : list string :=
  ["#1f77b4"; "#ff7f0e"; "#2ca02c"; "#d62728"; "#9467bd";
   "#8c564b"; "#e377c2"; "#7f7f7f"; "#bcbd22"; "#17becf"].

(** A row of [group_df]. *)
Record GroupRow : Type := mkGroupRow {
  g_group : string;
  g_display_name : string;
  g_color : string
}.

(** [pd.DataFrame] from three lists: pandas raises [ValueError] unless they
    have one length. *)
Definition frame_of_lists (gs ds cs : list string) : result (list GroupRow) :=
  if decide (length gs = length ds /\ length ds = length cs)
  then Ok (zip_with (fun gd c => mkGroupRow gd.1 gd.2 c) (zip gs ds) cs)
  else Err (ValueError "All arrays must be of the same length").

(** [group_df]: the groups, each its own display name, with the first
    [len(groups)] default colours. *)
Definition group_df (groups : list string) : result (list GroupRow) :=
  frame_of_lists groups groups (take (length groups) default_colors).

(** A row of the table as the user leaves it in the editor: any cell may be
    empty. *)
Record EditedRow : Type := mkEdited {
  e_group : option string;
  e_display_name : option string;
  e_color : option string
}.

(** The table the editor returns when the user changes nothing. *)
Definition unedited (rows : list GroupRow) : list EditedRow :=
  map (fun r => mkEdited (Some (g_group r)) (Some (g_display_name r))
                         (Some (g_color r))) rows.

(** [left.merge(edited_group_df, on="group", how="left",
    validate="many_to_one")]: pandas raises [MergeError], a [ValueError],
    when a key occurs twice in the right table; otherwise every left row is
    kept, in order, with the right row of its group when there is one. *)
Definition merge_groups {A : Type} (key : A -> string) (left : list A)
    (edited : list EditedRow) : result (list (A * option EditedRow)) :=
  if decide (NoDup (map e_group edited))
  then Ok (map (fun r =>
                  (r, List.find
                        (fun e => bool_decide (e_group e = Some (key r)))
                        edited))
               left)
  else Err (ValueError
    "Merge keys are not unique in right dataset; not a many-to-one merge").

(** The loop that keeps one legend entry per label, with its dictionary
    [seen]. *)
Definition legend_step {H : Type}
    (st : list H * list string * gmap string bool) (hl : H * string)
  : list H * list string * gmap string bool :=
  let '(new_handles, new_labels, seen) := st in
  match seen !! hl.2 with
  | None => (new_handles ++ [hl.1], new_labels ++ [hl.2], <[hl.2 := true]> seen)
  | Some _ => st
  end.

Definition unique_legend {H : Type} (handles : list H) (labels : list string)
  : list H * list string :=
  (foldl legend_step ([], [], ∅) (zip handles labels)).1.

(** * Vocabulary of the statements *)

(** The replicate tags, said without the matcher. *)
Definition replicate_tag (t : string) : Prop :=
  exists d, digits1 d = true /\
    (t = "R" +:+ d \/ t = "Rep" +:+ d \/ t = "rep" +:+ d).

Fixpoint has_digit (s : string) : bool :=
  match s with
  | EmptyString => false
  | String c s' => is_digit c || has_digit s'
  end.

Definition starts_with_digit (s : string) : bool :=
  match s with
  | EmptyString => false
  | String c _ => is_digit c
  end.

(** The texts the number pattern matches: a run of digits, or digits
    (possibly none), a point and a run of digits. *)
Definition decimal_shape (m : string) : Prop :=
  digits1 m = true \/
  exists d1 d2, all_digits d1 = true /\ digits1 d2 = true /\
                m = d1 +:+ "." +:+ d2.

(** A column whose name is [k] when case is ignored. *)
Definition has_column (cols : list string) (k : string) : Prop :=
  exists c, c ∈ cols /\ lower c = k.

(** [p] occurs in [s]. *)
Fixpoint occurs (p s : string) : bool :=
  String.prefix p s
  || match s with
     | EmptyString => false
     | String _ s' => occurs p s'
     end.

(** The elements of a list, each once, in the order of first occurrence. *)
Fixpoint first_occurrences (l : list string) : list string :=
  match l with
  | [] => []
  | x :: l' => x :: filter (fun y => y ≠ x) (first_occurrences l')
  end.

(** [list(pd.unique(tidy["group"].astype(str)))], the order in which the
    application lists the groups of a table. *)
Definition unique_groups (t : TidyTable) : list string :=
  first_occurrences (map group (records t)).

(** The number of records the source table holds: one per series column and
    row in the wide layout, one per row in the tidy layout. *)
Definition source_records (df : DataFrame) : nat :=
  match detect_layout (columns df) with
  | WIDE =>
      match lower_map (columns df) !! "time" with
      | Some time_col =>
          length (filter (fun c => c ≠ time_col) (columns df))
          * length (rows df)
      | None => 0
      end
  | TIDY => length (rows df)
  | Undetected => 0
  end.

(** The key of a row of the stats table. *)
Definition stats_key (s : Stats) : key := (st_group s, st_time s).

(** How many keys of a list are equal to [k]. *)
Definition count_key (k : key) (ks : list key) : nat :=
  length (filter (fun k' => key_eqb k' k = true) ks).


(** The order in which [groupby] leaves the rows of a frame whose group
    column holds text: by group, then by time, never two rows alike. *)
Definition key_lt (a b : key) : Prop :=
  String.compare a.1 b.1 = Lt \/ (a.1 = b.1 /\ (a.2 < b.2)%Q).

(** The grouping key of a row. *)
Definition row_key (interval_hours : option Q) (o : Obs Q) : key :=
  (group o, grouping_time interval_hours (time o)).
(** * Properties of the model *)

(** ** Text *)

Lemma append_cons x (a b : string) : String x a +:+ b = String x (a +:+ b).
Proof. reflexivity. Qed.

Lemma append_nil (b : string) : "" +:+ b = b.
Proof. reflexivity. Qed.

Ltac text_simpl := rewrite ?append_cons, ?append_nil; simpl.

Lemma append_assoc (a b c : string) : (a +:+ b) +:+ c = a +:+ (b +:+ c).
Proof.
  induction a as [|x a IH]; text_simpl; [reflexivity | by rewrite IH].
Qed.

Lemma append_empty_r (a : string) : a +:+ "" = a.
Proof.
  induction a as [|x a IH]; text_simpl; [reflexivity | by rewrite IH].
Qed.

Lemma has_char_append c (a b : string) :
  has_char c (a +:+ b) = has_char c a || has_char c b.
Proof.
  induction a as [|x a IH]; text_simpl; [reflexivity|].
  rewrite IH. by rewrite orb_assoc.
Qed.

Lemma chomp_cons (c c' : ascii) (t : string) :
  chomp (String c (String c' t)) = String c (chomp (String c' t)).
Proof. reflexivity. Qed.

Lemma chomp_append_lf (t : string) : chomp (t +:+ String line_feed "") = t.
Proof.
  induction t as [|c t IH]; [reflexivity|].
  text_simpl. destruct (t +:+ String line_feed "") eqn:E.
  - destruct t; discriminate.
  - by rewrite IH.
Qed.

Lemma chomp_no_lf (t : string) : has_char line_feed t = false -> chomp t = t.
Proof.
  induction t as [|c t IH]; [reflexivity|].
  simpl has_char. intros [Hc Ht]%orb_false_iff.
  destruct t as [|c' t']; [simpl; by rewrite Hc|].
  by rewrite chomp_cons, IH.
Qed.

Lemma chomp_cases (t : string) :
  t = chomp t \/ t = chomp t +:+ String line_feed "".
Proof.
  induction t as [|c t IH]; [by left|].
  destruct t as [|c' t'].
  - simpl. destruct (Ascii.eqb_spec c line_feed) as [->|]; [by right | by left].
  - rewrite chomp_cons, append_cons.
    destruct IH as [IH|IH]; [left | right]; by rewrite <- IH.
Qed.

Lemma all_digits_no_char c (d : string) :
  is_digit c = false -> all_digits d = true -> has_char c d = false.
Proof.
  intros Hc. induction d as [|x d IH]; [reflexivity|].
  simpl. intros [Hx Hd]%andb_true_iff. rewrite (IH Hd), orb_false_r.
  destruct (Ascii.eqb_spec x c) as [->|]; [congruence | reflexivity].
Qed.

Lemma digits1_all (d : string) : digits1 d = true -> all_digits d = true.
Proof. by destruct d. Qed.

Ltac split_char c :=
  destruct c as [[|] [|] [|] [|] [|] [|] [|] [|]]; try discriminate.

Lemma is_replicate_tag_spec (t : string) :
  is_replicate_tag t = true <-> replicate_tag t.
Proof.
  split.
  - unfold replicate_tag. intros H.
    destruct t as [|c t]; [discriminate|].
    split_char c; simpl in H;
      try (apply orb_true_iff in H as [H|H]; [solve [eauto] |]);
      (destruct t as [|c t]; [discriminate|]; split_char c; simpl in H);
      (destruct t as [|c t]; [discriminate|]; split_char c; simpl in H);
      eauto 6.
  - intros (d & Hd & [->| [->| ->]]); text_simpl; rewrite ?Hd; try reflexivity.
Qed.

Lemma replicate_tag_chars (t : string) :
  is_replicate_tag t = true ->
  has_char "_" t = false /\ has_char line_feed t = false.
Proof.
  intros (d & Hd%digits1_all & [->| [->| ->]])%is_replicate_tag_spec;
    text_simpl; rewrite !(all_digits_no_char _ d) by done; done.
Qed.

Lemma match_no_underscore (s : string) :
  has_char "_" s = false -> match_replicate_suffix s = None.
Proof.
  induction s as [|c s IH]; [reflexivity|].
  simpl has_char. intros [Hc Hs]%orb_false_iff.
  cbn [match_replicate_suffix]. rewrite (IH Hs).
  assert (tail_tag (String c s) = None) as ->.
  { unfold tail_tag.
    destruct c as [[|] [|] [|] [|] [|] [|] [|] [|]];
      first [reflexivity | discriminate Hc]. }
  by destruct (Ascii.eqb c line_feed).
Qed.

(** What a match says about the text, line feeds included. *)
Lemma match_replicate_suffix_sound (s b t : string) :
  match_replicate_suffix s = Some (b, t) ->
  is_replicate_tag t = true /\ has_char line_feed b = false /\
  (s = b +:+ "_" +:+ t \/ s = b +:+ "_" +:+ t +:+ String line_feed "").
Proof.
  revert b. induction s as [|c s IH]; intros b; [discriminate|].
  cbn [match_replicate_suffix].
  destruct (Ascii.eqb c line_feed) eqn:Ec.
  - unfold tail_tag. apply Ascii.eqb_eq in Ec as ->. discriminate.
  - destruct (match_replicate_suffix s) as [[b' t']|] eqn:Es.
    + intros [= <- <-]. destruct (IH _ eq_refl) as (Ht & Hb & Hs).
      split; [done|]. split; [simpl; by rewrite Ec|].
      rewrite !append_cons. destruct Hs as [-> | ->]; auto.
    + unfold tail_tag. split_char c.
      destruct (is_replicate_tag (chomp s)) eqn:Ht; [|discriminate].
      intros [= <- <-]. split; [done|]. split; [done|].
      destruct (chomp_cases s) as [E|E]; [left | right];
        rewrite !append_nil, !append_cons, !append_nil; by rewrite <- E.
Qed.

Lemma match_replicate_suffix_cons (c : ascii) (s : string) :
  match_replicate_suffix (String c s) =
  match (if Ascii.eqb c line_feed then None else match_replicate_suffix s) with
  | Some (b, t) => Some (String c b, t)
  | None =>
      match tail_tag (String c s) with
      | Some t => Some (EmptyString, t)
      | None => None
      end
  end.
Proof. reflexivity. Qed.

Lemma match_replicate_suffix_complete (b t : string) :
  has_char line_feed b = false -> is_replicate_tag t = true ->
  match_replicate_suffix (b +:+ "_" +:+ t) = Some (b, t) /\
  match_replicate_suffix (b +:+ "_" +:+ t +:+ String line_feed "") = Some (b, t).
Proof.
  intros Hb Ht. destruct (replicate_tag_chars t Ht) as [Hu Hl].
  induction b as [|c b IH].
  - rewrite !append_nil. rewrite !append_cons, !append_nil.
    rewrite !match_replicate_suffix_cons.
    replace (Ascii.eqb "_" line_feed) with false by reflexivity.
    rewrite (match_no_underscore t Hu).
    rewrite (match_no_underscore (t +:+ String line_feed ""))
      by (rewrite has_char_append, Hu; reflexivity).
    unfold tail_tag. rewrite chomp_append_lf, (chomp_no_lf t Hl), Ht. done.
  - simpl in Hb. apply orb_false_iff in Hb as [Hc Hb].
    rewrite !(append_cons c b), !match_replicate_suffix_cons, Hc.
    destruct (IH Hb) as [-> ->]. done.
Qed.

(** On a text without line feed, the matcher is exact. *)
Lemma match_replicate_suffix_iff (s b t : string) :
  has_char line_feed s = false ->
  match_replicate_suffix s = Some (b, t) <->
  s = b +:+ "_" +:+ t /\ replicate_tag t.
Proof.
  intros Hs. split.
  - intros (Ht & Hb & [E|E])%match_replicate_suffix_sound.
    + by rewrite <- is_replicate_tag_spec.
    + rewrite E in Hs. rewrite !has_char_append in Hs.
      simpl in Hs. by rewrite !orb_true_r in Hs.
  - intros [-> Ht%is_replicate_tag_spec].
    rewrite has_char_append in Hs. apply orb_false_iff in Hs as [Hb _].
    by apply match_replicate_suffix_complete.
Qed.

(** ** The number pattern *)

Lemma span_digits_spec (s d r : string) :
  span_digits s = (d, r) ->
  s = d +:+ r /\ all_digits d = true /\ starts_with_digit r = false.
Proof.
  revert d r. induction s as [|c s IH]; intros d r.
  - intros [= <- <-]. done.
  - simpl. destruct (is_digit c) eqn:Ec.
    + destruct (span_digits s) as [d' r'] eqn:Es. intros [= <- <-].
      destruct (IH _ _ eq_refl) as (-> & Hd & Hr).
      rewrite append_cons. simpl. by rewrite Ec, Hd.
    + intros [= <- <-]. simpl. by rewrite Ec.
Qed.

Lemma match_number_sound (s m : string) :
  match_number s = Some m ->
  decimal_shape m /\ exists post, s = m +:+ post /\ starts_with_digit post = false.
Proof.
  unfold match_number.
  destruct (span_digits s) as [d r] eqn:Es.
  destruct (span_digits_spec _ _ _ Es) as (-> & Hd & Hr).
  assert (Hint : match d with EmptyString => None | String _ _ => Some d end = Some m ->
                 decimal_shape m /\ exists post, d +:+ r = m +:+ post /\ starts_with_digit post = false).
  { destruct d as [|c d]; [discriminate|]. intros [= <-].
    split; [by left | eauto]. }
  destruct r as [|c r]; [exact Hint|].
  split_char c; try exact Hint.
  destruct (span_digits r) as [d2 r2] eqn:Er.
  destruct (span_digits_spec _ _ _ Er) as (-> & Hd2 & Hr2).
  destruct d2 as [|c2 d2]; [exact Hint|].
  intros [= <-]. split.
  - right. exists d, (String c2 d2). done.
  - exists r2. split; [|done]. by rewrite !append_assoc.
Qed.

Lemma match_number_none (s : string) :
  match_number s = None -> starts_with_digit s = false.
Proof.
  unfold match_number. destruct s as [|c s]; [done|].
  simpl. destruct (is_digit c) eqn:Ec; [|done].
  destruct (span_digits s) as [d r].
  destruct r as [|c' r]; [discriminate|].
  split_char c'.
  destruct (span_digits r) as [[|c2 d2] r2]; discriminate.
Qed.

Lemma match_number_digit (s : string) :
  starts_with_digit s = true -> is_Some (match_number s).
Proof.
  intros H. destruct (match_number s) eqn:E; [eauto|].
  apply match_number_none in E. congruence.
Qed.

(** The first match: nothing before it holds a digit, and it is followed by
    no further digit. *)
Lemma search_number_some (s m : string) :
  search_number s = Some m ->
  decimal_shape m /\
  exists pre post, s = pre +:+ m +:+ post /\ has_digit pre = false /\
                   starts_with_digit post = false.
Proof.
  induction s as [|c s IH].
  - simpl. discriminate.
  - cbn [search_number]. destruct (match_number (String c s)) as [m'|] eqn:E.
    + intros [= ->]. destruct (match_number_sound _ _ E) as (Hm & post & Hs & Hp).
      split; [done|]. exists "", post. done.
    + intros H. destruct (IH H) as (Hm & pre & post & -> & Hpre & Hpost).
      split; [done|]. exists (String c pre), post.
      rewrite append_cons. split; [done|]. split; [|done].
      simpl. apply match_number_none in E. simpl in E. by rewrite E.
Qed.

Lemma has_digit_append (a b : string) :
  has_digit (a +:+ b) = has_digit a || has_digit b.
Proof.
  induction a as [|x a IH]; [done|].
  rewrite append_cons. simpl. by rewrite IH, orb_assoc.
Qed.

Lemma digits1_has_digit (d : string) : digits1 d = true -> has_digit d = true.
Proof.
  destruct d as [|x d]; [discriminate|]. simpl.
  by intros [-> _]%andb_true_iff.
Qed.

Lemma decimal_shape_has_digit (m : string) :
  decimal_shape m -> has_digit m = true.
Proof.
  intros [Hm | (d1 & d2 & H1 & H2 & ->)].
  - by apply digits1_has_digit.
  - rewrite !has_digit_append, (digits1_has_digit d2 H2).
    by rewrite !orb_true_r.
Qed.

Lemma search_number_none (s : string) :
  search_number s = None <-> has_digit s = false.
Proof.
  induction s as [|c s IH].
  - done.
  - cbn [search_number]. destruct (match_number (String c s)) as [m'|] eqn:E.
    + split; [discriminate|]. intros H.
      destruct (match_number_sound _ _ E) as (Hm & post & Hs & Hp).
      rewrite Hs, has_digit_append, (decimal_shape_has_digit _ Hm) in H.
      discriminate.
    + rewrite IH. simpl. apply match_number_none in E. simpl in E. by rewrite E.
Qed.

Lemma no_underscore_no_split (s b t : string) :
  has_char "_" s = false -> s <> b +:+ "_" +:+ t.
Proof.
  intros H ->. rewrite !has_char_append in H. simpl in H.
  by rewrite orb_true_r in H.
Qed.

(** ** Format detection *)

Lemma lower_map_dom (m : gmap string string) (cols : list string) :
  dom (foldl (fun m c => <[lower c := c]> m) m cols)
  = dom m ∪ list_to_set (map lower cols).
Proof.
  revert m. induction cols as [|c cols IH]; intros m; simpl.
  - by rewrite (right_id_L ∅ (∪)).
  - apply set_eq. intros x.
    rewrite IH, dom_insert_L, !elem_of_union, elem_of_singleton. tauto.
Qed.

Lemma elem_of_cols_lower (k : string) (cols : list string) :
  k ∈ cols_lower cols <-> has_column cols k.
Proof.
  unfold cols_lower, lower_map, has_column.
  rewrite lower_map_dom, dom_empty_L, elem_of_union, elem_of_list_to_set.
  rewrite list_elem_of_In, in_map_iff. setoid_rewrite list_elem_of_In. split.
  - intros [H | (c & <- & Hc)]; [by apply elem_of_empty in H | eauto].
  - intros (c & Hc & <-). eauto.
Qed.

Lemma lower_map_lookup_gen (m : gmap string string) (cols : list string) k v :
  foldl (fun m c => <[lower c := c]> m) m cols !! k = Some v ->
  (v ∈ cols /\ lower v = k) \/ m !! k = Some v.
Proof.
  revert m. induction cols as [|c cols IH]; intros m; simpl; [auto|].
  intros [[H1 H2] | H]%IH.
  - left. split; [by right | done].
  - destruct (decide (lower c = k)) as [<-|Hne].
    + rewrite lookup_insert_eq in H. injection H as <-. left. split; [by left | done].
    + rewrite lookup_insert_ne in H by done. by right.
Qed.

Lemma lower_map_lookup (cols : list string) k v :
  lower_map cols !! k = Some v -> v ∈ cols /\ lower v = k.
Proof.
  intros [H | H]%lower_map_lookup_gen; [done|]. by rewrite lookup_empty in H.
Qed.

Lemma lower_map_is_Some (cols : list string) k :
  is_Some (lower_map cols !! k) <-> has_column cols k.
Proof. rewrite <- elem_of_dom. apply elem_of_cols_lower. Qed.

Lemma triple_subseteq (cols : list string) :
  replicate_triple ⊆ cols_lower cols <->
  has_column cols "group" /\ has_column cols "replicate" /\ has_column cols "value".
Proof.
  rewrite <- !elem_of_cols_lower. unfold replicate_triple. split.
  - intros H. repeat split; apply H;
      rewrite !elem_of_union, !elem_of_singleton; tauto.
  - intros (H1 & H2 & H3) x.
    rewrite !elem_of_union, !elem_of_singleton. intros [[->| ->]| ->]; done.
Qed.

Lemma required_subseteq (cols : list string) :
  required ⊆ cols_lower cols <->
  has_column cols "time" /\ has_column cols "group" /\ has_column cols "value".
Proof.
  rewrite <- !elem_of_cols_lower. unfold required. split.
  - intros H. repeat split; apply H;
      rewrite !elem_of_union, !elem_of_singleton; tauto.
  - intros (H1 & H2 & H3) x.
    rewrite !elem_of_union, !elem_of_singleton. intros [[->| ->]| ->]; done.
Qed.

(** The layout, from the columns that exist when case is ignored. *)
Lemma detect_layout_spec (cols : list string) :
  let wide := has_column cols "time" /\
              ~ (has_column cols "group" /\ has_column cols "replicate" /\
                 has_column cols "value") in
  let tidy := has_column cols "time" /\ has_column cols "group" /\
              has_column cols "value" in
  (wide -> detect_layout cols = WIDE) /\
  (~ wide -> tidy -> detect_layout cols = TIDY) /\
  (~ wide -> ~ tidy -> detect_layout cols = Undetected).
Proof.
  intros wide tidy. unfold detect_layout.
  subst wide tidy.
  rewrite <- required_subseteq, <- triple_subseteq, <- elem_of_cols_lower.
  repeat case_bool_decide; simpl; intuition congruence.
Qed.
(** ** The normaliser *)

Lemma notna_true (x : float) : notna x = true <-> x <> NaN.
Proof. destruct x; simpl; split; congruence. Qed.

Lemma elem_of_positions_from (i : nat) (name : string) (labels : list string) j :
  j ∈ positions_from i name labels <->
  exists k, j = (i + k)%nat /\ labels !! k = Some name.
Proof.
  revert i. induction labels as [|c cs IH]; intros i; simpl.
  - rewrite elem_of_nil. split; [done|]. by intros (k & _ & ?).
  - destruct (decide (c = name)) as [->|Hne].
    + rewrite elem_of_cons, IH. split.
      * intros [->|(k & -> & Hk)]; [exists 0%nat | exists (S k)];
          split; (lia || done).
      * intros ([|k] & -> & Hk); [left; lia | right; exists k].
        split; [lia | done].
    + rewrite IH. split.
      * intros (k & -> & Hk). exists (S k). split; [lia | done].
      * intros ([|k] & -> & Hk); [simpl in Hk; congruence|].
        exists k. split; [lia | done].
Qed.

Lemma elem_of_positions (name : string) (labels : list string) j :
  j ∈ positions name labels <-> labels !! j = Some name.
Proof.
  unfold positions. rewrite elem_of_positions_from. split.
  - by intros (k & -> & Hk).
  - intros H. by exists j.
Qed.

Lemma positions_single (name : string) (labels : list string) i j k :
  positions name labels = [i] ->
  labels !! j = Some name -> labels !! k = Some name -> j = k.
Proof.
  intros Hp Hj%elem_of_positions Hk%elem_of_positions.
  rewrite Hp in Hj, Hk. apply list_elem_of_singleton in Hj, Hk. congruence.
Qed.

Lemma elem_of_indexed_from (i : nat) (labels : list string) j c :
  (j, c) ∈ zip (seq i (length labels)) labels <->
  exists k, j = (i + k)%nat /\ labels !! k = Some c.
Proof.
  revert i. induction labels as [|x xs IH]; intros i; simpl.
  - rewrite elem_of_nil. split; [done|]. by intros (k & _ & ?).
  - rewrite elem_of_cons, IH. split.
    + intros [[= -> ->]|(k & -> & Hk)]; [exists 0%nat | exists (S k)];
        split; (lia || done).
    + intros ([|k] & -> & Hk).
      * left. simpl in Hk. injection Hk as ->. f_equal. lia.
      * right. exists k. split; [lia | done].
Qed.

Lemma elem_of_indexed (labels : list string) j c :
  (j, c) ∈ indexed labels <-> labels !! j = Some c.
Proof.
  unfold indexed. rewrite elem_of_indexed_from. split.
  - by intros (k & -> & Hk).
  - intros H. by exists j.
Qed.

Lemma rename_label_lookup (old new : string) (labels : list string) j c :
  rename_label old new labels !! j = Some c <->
  exists c0, labels !! j = Some c0 /\
             c = if decide (c0 = old) then new else c0.
Proof.
  unfold rename_label.
  revert j. induction labels as [|x xs IH]; intros j; simpl.
  - rewrite lookup_nil. split; [done|]. by intros (c0 & ? & _).
  - destruct j as [|j]; simpl.
    + split; [intros [= <-]; eauto | intros (c0 & [= <-] & ->); done].
    + apply IH.
Qed.

Section NormaliserFacts.

Variable to_float : string -> float.
Variable float_str : float -> string.

Lemma forallb_notna (col : list cell) :
  forallb notna (map (to_numeric to_float) col) = true <->
  Forall (fun c => to_numeric to_float c <> NaN) col.
Proof.
  induction col as [|c col IH]; simpl.
  - split; [constructor | done].
  - rewrite andb_true_iff, Forall_cons, IH, notna_true. tauto.
Qed.

Lemma length_coerce_time (col : list cell) :
  length (_coerce_time to_float float_str col) = length col.
Proof.
  unfold _coerce_time.
  destruct (forallb _ _); by rewrite length_map.
Qed.

Lemma coerce_time_direct (col : list cell) :
  Forall (fun c => to_numeric to_float c <> NaN) col ->
  _coerce_time to_float float_str col = map (to_numeric to_float) col.
Proof.
  intros H%forallb_notna. unfold _coerce_time. by rewrite H.
Qed.

Lemma coerce_time_fallback (col : list cell) :
  Exists (fun c => to_numeric to_float c = NaN) col ->
  _coerce_time to_float float_str col
  = map (extract_number to_float float_str) col.
Proof.
  intros H. unfold _coerce_time.
  destruct (forallb _ _) eqn:E; [|done].
  apply forallb_notna in E. exfalso.
  induction H as [c l Hc | c l _ IH].
  - apply Forall_cons in E as [E _]. done.
  - apply Forall_cons in E as [_ E]. auto.
Qed.

Lemma melt_Ok (labels : list string) (data : list (list cell))
    (id_var : string) (value_vars : list string) (long : list LongRow) :
  melt labels data id_var value_vars = Ok long ->
  ("value" ∉ labels) /\
  exists i, positions id_var labels = [i] /\
    long = flat_map
             (fun jc : nat * string =>
                map (fun r => mkLong (cell_at i r) jc.2 (cell_at jc.1 r)) data)
             (filter (fun jc : nat * string => jc.2 ∈ value_vars)
                     (indexed labels)).
Proof.
  unfold melt. destruct (decide ("value" ∈ labels)); [discriminate|].
  destruct (positions id_var labels) as [|i [|i' l]]; try discriminate.
  intros [= <-]. eauto.
Qed.

(** What a successful run of the wide branch returns. *)
Lemma read_wide_Ok (df : DataFrame) (t : TidyTable) :
  read_wide to_float float_str df = Ok t ->
  exists time_col long,
    lower_map (columns df) !! "time" = Some time_col /\
    melt (rename_label time_col "time" (columns df)) (rows df) "time"
         (filter (fun c => c ≠ time_col) (columns df)) = Ok long /\
    group_categories t
      = Some (group_order (filter (fun c => c ≠ time_col) (columns df))) /\
    records t
      = filter (fun o => resolved o = true)
          (zip_with
             (fun x (r : LongRow) =>
                mkObs x (wide_group (l_col r)) (wide_replicate (l_col r))
                      (to_numeric to_float (l_value r)))
             (_coerce_time to_float float_str (map l_time long)) long).
Proof.
  unfold read_wide.
  destruct (lower_map (columns df) !! "time") as [time_col|]; [|discriminate].
  destruct (melt _ _ _ _) as [long|e] eqn:Em; [|discriminate].
  simpl. intros [= <-]. exists time_col, long. done.
Qed.

(** Where a record of the wide branch comes from: a column other than the
    time column, and a row. *)
Lemma read_wide_record (df : DataFrame) (t : TidyTable) (o : Obs float) :
  read_wide to_float float_str df = Ok t ->
  o ∈ records t ->
  exists time_col j c row,
    lower_map (columns df) !! "time" = Some time_col /\
    columns df !! j = Some c /\ c <> time_col /\ row ∈ rows df /\
    value o = to_numeric to_float (cell_at j row) /\
    group o = wide_group c /\ replicate o = wide_replicate c.
Proof.
  intros (time_col & long & Hlm & Hmelt & _ & Hrec)%read_wide_Ok Ho.
  apply melt_Ok in Hmelt as (_ & i & Hpos & Hlong).
  rewrite Hrec in Ho. apply list_elem_of_filter in Ho as [_ Ho].
  apply elem_of_zip_with in Ho as (x & r & -> & _ & Hr).
  rewrite Hlong in Hr. apply list_elem_of_In, in_flat_map in Hr.
  destruct Hr as ([j c'] & Hjc & Hr).
  apply list_elem_of_In, list_elem_of_filter in Hjc as [Hvv Hjc].
  apply in_map_iff in Hr as (row & <- & Hrow%list_elem_of_In).
  simpl in *.
  apply list_elem_of_filter in Hvv as [Hne Hin].
  apply elem_of_indexed, rename_label_lookup in Hjc as (c0 & Hc0 & Hc').
  exists time_col, j, c', row.
  destruct (decide (c0 = time_col)) as [->|Hne0].
  - (* the renamed time column would be selected as a series: then the
       frame holds a second column labelled time, and melt has failed *)
    exfalso. subst c'.
    apply list_elem_of_lookup in Hin as [j' Hj'].
    assert (rename_label time_col "time" (columns df) !! j = Some "time") as H1.
    { apply rename_label_lookup. exists time_col.
      by rewrite decide_True by done. }
    assert (rename_label time_col "time" (columns df) !! j' = Some "time") as H2.
    { apply rename_label_lookup. exists "time".
      by rewrite decide_False by done. }
    assert (j = j') as <- by exact (positions_single _ _ _ _ _ Hpos H1 H2).
    congruence.
  - subst c'. done.
Qed.

End NormaliserFacts.
(** ** The order of the groups *)

Lemma filter_all {A} (P : A -> Prop) `{forall x, Decision (P x)} (l : list A) :
  (forall x, x ∈ l -> P x) -> filter P l = l.
Proof.
  induction l as [|x l IH]; intros Hall; [done|].
  rewrite filter_cons_True by (apply Hall; by left).
  rewrite IH; [done|]. intros y Hy. apply Hall. by right.
Qed.

Lemma group_order_fold (acc : list string) (seen : gset string)
    (l : list string) :
  (forall x, x ∈ seen <-> x ∈ acc) ->
  (foldl group_order_step (acc, seen) l).1
  = acc ++ filter (fun x => x ∉ acc)
             (first_occurrences (map _base_group_name l)).
Proof.
  revert acc seen. induction l as [|c l IH]; intros acc seen Hseen.
  - simpl. by rewrite app_nil_r.
  - cbn [foldl map first_occurrences]. unfold group_order_step at 2.
    cbn [fst snd]. set (b := _base_group_name c).
    destruct (decide (b ∈ seen)) as [Hb|Hb].
    + rewrite (IH acc seen Hseen). f_equal.
      apply Hseen in Hb.
      rewrite filter_cons_False by (intros Hn; by apply Hn).
      rewrite list_filter_filter. apply list_filter_iff.
      intros x. split; [|tauto]. intros Hx. split; [done|].
      intros ->. done.
    + rewrite (IH (acc ++ [b]) ({[ b ]} ∪ seen)).
      2:{ intros x. rewrite elem_of_union, elem_of_singleton, elem_of_app,
            list_elem_of_singleton, Hseen. tauto. }
      rewrite <- app_assoc. f_equal. simpl.
      rewrite filter_cons_True by (by rewrite <- Hseen).
      f_equal. rewrite list_filter_filter. apply list_filter_iff.
      intros x. rewrite elem_of_app, list_elem_of_singleton. tauto.
Qed.

(** The loop of the source collects the base names in order of first
    occurrence. *)
Lemma group_order_spec (l : list string) :
  group_order l = first_occurrences (map _base_group_name l).
Proof.
  unfold group_order. rewrite (group_order_fold [] ∅ l).
  - simpl. apply filter_all. intros x _. apply not_elem_of_nil.
  - intros x. rewrite elem_of_nil. split; [|done]. apply not_elem_of_empty.
Qed.

Lemma elem_of_first_occurrences (l : list string) x :
  x ∈ first_occurrences l <-> x ∈ l.
Proof.
  induction l as [|y l IH]; simpl; [done|].
  rewrite !elem_of_cons, list_elem_of_filter, IH.
  destruct (decide (x = y)); tauto.
Qed.

Lemma NoDup_first_occurrences (l : list string) : NoDup (first_occurrences l).
Proof.
  induction l as [|y l IH]; simpl; [constructor|].
  constructor.
  - rewrite list_elem_of_filter. tauto.
  - by apply NoDup_filter.
Qed.

(** Every group the wide branch writes is one of the categories. *)
Lemma wide_group_in_order (l : list string) (c : string) :
  c ∈ l -> wide_group c ∈ group_order l.
Proof.
  intros Hc. rewrite group_order_spec, elem_of_first_occurrences.
  apply list_elem_of_In, in_map_iff. exists c. split; [|by apply list_elem_of_In].
  reflexivity.
Qed.
(** ** The records before and after [dropna] *)

Lemma map_fmap {A B} (f : A -> B) (l : list A) : map f l = f <$> l.
Proof. induction l as [|x l IH]; simpl; [done | by rewrite IH]. Qed.

Lemma length_flat_map_const {A B} (f : A -> list B) (n : nat) (l : list A) :
  (forall x, length (f x) = n) -> length (flat_map f l) = (length l * n)%nat.
Proof.
  intros Hf. induction l as [|x l IH]; simpl; [done|].
  by rewrite length_app, Hf, IH.
Qed.

Lemma length_filter_Forall2 {A B} (P : A -> Prop) (Q : B -> Prop)
    `{forall x, Decision (P x)} `{forall y, Decision (Q y)}
    (l : list A) (k : list B) :
  Forall2 (fun a b => P a <-> Q b) l k ->
  length (filter P l) = length (filter Q k).
Proof.
  induction 1 as [|a b l k Hab _ IH]; [done|].
  destruct (decide (P a)) as [Ha|Ha].
  - rewrite !filter_cons_True by tauto. simpl. by rewrite IH.
  - rewrite !filter_cons_False by tauto. done.
Qed.

Lemma indexed_lookup (labels : list string) n j c :
  indexed labels !! n = Some (j, c) <-> j = n /\ labels !! n = Some c.
Proof.
  unfold indexed. rewrite lookup_zip_Some, lookup_seq. split.
  - intros [[-> _] H]. done.
  - intros [-> H]. split; [|done]. split; [done|].
    by apply lookup_lt_is_Some.
Qed.

Lemma length_indexed (labels : list string) :
  length (indexed labels) = length labels.
Proof.
  unfold indexed. rewrite length_zip, length_seq. lia.
Qed.

(** Once [melt] has accepted the frame, the value columns it selects are the
    columns other than the time column, by position. *)
Lemma wide_series_position (cols : list string) (time_col : string) i j c0 :
  positions "time" (rename_label time_col "time" cols) = [i] ->
  cols !! j = Some c0 ->
  (if decide (c0 = time_col) then "time" else c0)
    ∈ filter (fun c => c ≠ time_col) cols
  <-> c0 <> time_col.
Proof.
  intros Hpos Hj. rewrite list_elem_of_filter.
  destruct (decide (c0 = time_col)) as [->|Hne].
  - split; [|done]. intros [Hne Hin]. exfalso.
    apply list_elem_of_lookup in Hin as [j' Hj'].
    assert (rename_label time_col "time" cols !! j = Some "time") as H1.
    { apply rename_label_lookup. exists time_col.
      by rewrite decide_True by done. }
    assert (rename_label time_col "time" cols !! j' = Some "time") as H2.
    { apply rename_label_lookup. exists "time".
      by rewrite decide_False by done. }
    assert (j = j') as <- by exact (positions_single _ _ _ _ _ Hpos H1 H2).
    congruence.
  - split; [done|]. intros _. split; [done|].
    apply list_elem_of_lookup. eauto.
Qed.

Lemma wide_series_count (cols : list string) (time_col : string) i :
  positions "time" (rename_label time_col "time" cols) = [i] ->
  length (filter (fun jc : nat * string =>
                    jc.2 ∈ filter (fun c => c ≠ time_col) cols)
                 (indexed (rename_label time_col "time" cols)))
  = length (filter (fun c => c ≠ time_col) cols).
Proof.
  intros Hpos. apply length_filter_Forall2.
  apply Forall2_same_length_lookup_2.
  - rewrite length_indexed. unfold rename_label. by rewrite length_map.
  - intros n [j c'] c0 [-> Hc']%indexed_lookup Hc0.
    apply rename_label_lookup in Hc' as (c1 & Hc1 & ->).
    assert (c1 = c0) as -> by congruence.
    simpl. by apply wide_series_position with i n.
Qed.


Lemma required_renaming_lookup (lm : gmap string string) (c k : string) :
  required_renaming lm !! c = Some k -> lm !! k = Some c.
Proof.
  unfold required_renaming. simpl.
  destruct (lm !! "time") as [vt|] eqn:Et;
  destruct (lm !! "group") as [vg|] eqn:Eg;
  destruct (lm !! "value") as [vv|] eqn:Ev;
  rewrite ?lookup_insert, ?lookup_empty;
  repeat case_decide; subst; congruence.
Qed.

Lemma rename_lookup (f : gmap string string) (labels : list string) j c :
  rename f labels !! j = Some c ->
  exists c0, labels !! j = Some c0 /\ (c = c0 \/ f !! c0 = Some c).
Proof.
  unfold rename. rewrite map_fmap, list_lookup_fmap.
  destruct (labels !! j) as [c0|]; [|discriminate].
  simpl. intros [= <-]. exists c0. split; [done|].
  destruct (f !! c0); simpl; auto.
Qed.


Section RecordFacts.

Variable to_float : string -> float.
Variable float_str : float -> string.





End RecordFacts.
(** ** The aggregator *)

Lemma key_eqb_refl (k : key) : key_eqb k k = true.
Proof.
  unfold key_eqb. by rewrite String.eqb_refl, Qeq_bool_refl.
Qed.

Lemma key_eqb_sym (a b : key) : key_eqb a b = key_eqb b a.
Proof.
  unfold key_eqb. by rewrite String.eqb_sym, Qeq_bool_comm.
Qed.

Lemma key_eqb_true (a b : key) :
  key_eqb a b = true <-> a.1 = b.1 /\ (a.2 == b.2)%Q.
Proof.
  unfold key_eqb. by rewrite andb_true_iff, String.eqb_eq, Qeq_bool_iff.
Qed.

Lemma key_eqb_congr (a b c : key) :
  key_eqb a b = true -> key_eqb a c = key_eqb b c.
Proof.
  intros [H1 H2]%key_eqb_true.
  destruct (key_eqb b c) eqn:E.
  - apply key_eqb_true in E as [E1 E2]. apply key_eqb_true.
    split; [congruence|]. by rewrite H2.
  - destruct (key_eqb a c) eqn:E'; [|done].
    apply key_eqb_true in E' as [E1 E2].
    rewrite <- E. symmetry. apply key_eqb_true. split; [congruence|].
    by rewrite <- H2.
Qed.

Lemma filter_none {A} (P : A -> Prop) `{forall x, Decision (P x)} (l : list A) :
  (forall x, x ∈ l -> ~ P x) -> filter P l = [].
Proof.
  induction l as [|x l IH]; intros Hall; [done|].
  rewrite filter_cons_False by (apply Hall; by left).
  apply IH. intros y Hy. apply Hall. by right.
Qed.

Lemma count_key_cons (k a : key) (l : list key) :
  count_key k (a :: l)
  = ((if key_eqb a k then 1 else 0) + count_key k l)%nat.
Proof.
  unfold count_key. destruct (key_eqb a k) eqn:E.
  - by rewrite filter_cons_True by done.
  - rewrite filter_cons_False by (by rewrite E). done.
Qed.

(** Each key that occurs is kept exactly once. *)
Lemma count_key_distinct (k : key) (ks : list key) :
  count_key k (distinct_keys ks)
  = if existsb (fun k' => key_eqb k' k) ks then 1%nat else 0%nat.
Proof.
  induction ks as [|a ks IH]; [done|].
  cbn [distinct_keys existsb]. rewrite count_key_cons.
  destruct (key_eqb a k) eqn:E; simpl.
  - unfold count_key. rewrite list_filter_filter, filter_none; [done|].
    intros x _ [H1 H2]. rewrite (key_eqb_congr a k x E) in H2.
    rewrite key_eqb_sym in H2. congruence.
  - rewrite <- IH. unfold count_key. rewrite list_filter_filter. f_equal.
    apply list_filter_iff. intros x. split; [tauto|].
    intros Hx. split; [done|].
    destruct (key_eqb a x) eqn:E'; [|done].
    rewrite (key_eqb_congr a x k E') in E. congruence.
Qed.

Lemma elem_of_distinct_keys (k : key) (ks : list key) :
  k ∈ distinct_keys ks -> k ∈ ks.
Proof.
  induction ks as [|a ks IH]; simpl; [done|].
  rewrite !elem_of_cons, list_elem_of_filter. tauto.
Qed.

Lemma count_key_insert (k a : key) (l : list key) :
  count_key k (insert_key a l) = count_key k (a :: l).
Proof.
  induction l as [|b l IH]; [done|].
  simpl. destruct (key_leb a b); [done|].
  rewrite (count_key_cons k b), IH, !count_key_cons. lia.
Qed.

Lemma count_key_sort (k : key) (l : list key) :
  count_key k (sort_keys l) = count_key k l.
Proof.
  induction l as [|a l IH]; [done|].
  simpl. by rewrite count_key_insert, !count_key_cons, IH.
Qed.

Lemma elem_of_insert_key (k a : key) (l : list key) :
  k ∈ insert_key a l <-> k = a \/ k ∈ l.
Proof.
  induction l as [|b l IH]; simpl.
  - rewrite list_elem_of_singleton, elem_of_nil. tauto.
  - destruct (key_leb a b).
    + by rewrite !elem_of_cons.
    + rewrite !elem_of_cons, IH. tauto.
Qed.

Lemma elem_of_sort_keys (k : key) (l : list key) :
  k ∈ sort_keys l <-> k ∈ l.
Proof.
  induction l as [|a l IH]; simpl; [done|].
  by rewrite elem_of_insert_key, elem_of_cons, IH.
Qed.

Lemma existsb_key (k : key) (ks : list key) :
  existsb (fun k' => key_eqb k' k) ks = true <->
  exists k', k' ∈ ks /\ key_eqb k' k = true.
Proof.
  rewrite existsb_exists. by setoid_rewrite list_elem_of_In.
Qed.


Lemma agg_keys (keyed : list (key * Q)) :
  map stats_key (agg keyed) = sort_keys (distinct_keys (map fst keyed)).
Proof.
  unfold agg. rewrite map_map. unfold stats_key. simpl.
  induction (sort_keys _) as [|[g x] l IH]; [done|].
  simpl. by rewrite IH.
Qed.



Lemma elem_of_agg (keyed : list (key * Q)) (s : Stats) :
  s ∈ agg keyed ->
  stats_key s ∈ map fst keyed /\
  st_mean s = mean (values_of (stats_key s) keyed) /\
  st_sd s = std (values_of (stats_key s) keyed) /\
  st_n s = length (values_of (stats_key s) keyed).
Proof.
  unfold agg. intros (k & <- & Hk)%list_elem_of_In%in_map_iff.
  apply list_elem_of_In, elem_of_sort_keys, elem_of_distinct_keys in Hk.
  destruct k as [g x]. done.
Qed.









Lemma zip3_map {A} (f : A -> string) (g h : A -> Q) (l : list A) :
  zip (zip (map f l) (map g l)) (map h l) = map (fun o => ((f o, g o), h o)) l.
Proof. induction l as [|x l IH]; simpl; [done | by rewrite IH]. Qed.


Lemma positive_interval_true (h : Q) : (0 < h)%Q -> positive_interval h = true.
Proof.
  intros Hh. unfold positive_interval.
  destruct (Qle_bool h 0) eqn:E; [|done].
  apply Qle_bool_iff in E. exfalso. by apply (Qlt_not_le 0 h).
Qed.

Lemma positive_interval_false (h : Q) : (h <= 0)%Q -> positive_interval h = false.
Proof.
  intros Hh. unfold positive_interval.
  apply Qle_bool_iff in Hh. by rewrite Hh.
Qed.

(** ** The aggregator on shared frames *)

Lemma frame_of_lookup (df : list (Obs Q)) :
  frame_of df !! "time" = Some (FloatCol (map time df)) /\
  frame_of df !! "group" = Some (TextCol (map group df)) /\
  frame_of df !! "value" = Some (FloatCol (map value df)).
Proof.
  unfold frame_of. split; [|split].
  - by rewrite lookup_insert_eq.
  - rewrite lookup_insert_ne by done. by rewrite lookup_insert_eq.
  - do 3 (rewrite lookup_insert_ne by done). by rewrite lookup_insert_eq.
Qed.

Lemma frame_get_eq (h : gmap positive (gmap string Column)) (l : positive)
    (f : gmap string Column) (label : string) (c : Column) :
  h !! l = Some f -> f !! label = Some c -> frame_get l label h = Some (c, h).
Proof. intros Hl Hc. unfold frame_get. by rewrite Hl, Hc. Qed.

(** Grouping a frame object that holds the columns of [df], with [ts] as its
    grouping time column. *)
Lemma group_frame (h : gmap positive (gmap string Column)) (d : positive)
    (f : gmap string Column) (df : list (Obs Q)) (g : Q -> Q)
    (time_col : string) :
  h !! d = Some f ->
  f !! "group" = Some (TextCol (map group df)) ->
  f !! time_col = Some (FloatCol (map (fun o => g (time o)) df)) ->
  f !! "value" = Some (FloatCol (map value df)) ->
  (gc ← frame_get d "group";
   gs ← heap_lift (texts_of gc);
   tc ← frame_get d time_col;
   ts ← heap_lift (floats_of tc);
   vc ← frame_get d "value";
   vs ← heap_lift (floats_of vc);
   mret (agg (zip (zip gs ts) vs))) h
  = Some (agg (map (fun o => ((group o, g (time o)), value o)) df), h).
Proof.
  intros Hd Hg Ht Hv. unfold mbind, heap_bind, mret, heap_ret.
  rewrite (frame_get_eq h d f "group" _ Hd Hg). simpl.
  rewrite (frame_get_eq h d f time_col _ Hd Ht). simpl.
  rewrite (frame_get_eq h d f "value" _ Hd Hv). simpl.
  by rewrite zip3_map.
Qed.
(** * The specified properties *)

(** C1.  Format classification.  With column names compared without case:
    when a [time] column exists and [group], [replicate], [value] are not all
    three present, the table is normalised by the wide branch; otherwise,
    when [time], [group] and [value] are all present, by the tidy branch;
    otherwise the run fails with the format-detection error, whose message
    names both layouts, and returns no table. *)
Theorem format_classification
    (to_float : string -> float) (float_str : float -> string)
    (df : DataFrame) :
  let cols := columns df in
  let wide := has_column cols "time" /\
              ~ (has_column cols "group" /\ has_column cols "replicate" /\
                 has_column cols "value") in
  let tidy := has_column cols "time" /\ has_column cols "group" /\
              has_column cols "value" in
  (wide ->
     detect_layout cols = WIDE /\
     read_incucyte_csv to_float float_str df = read_wide to_float float_str df)
  /\ (~ wide -> tidy ->
     detect_layout cols = TIDY /\
     read_incucyte_csv to_float float_str df = read_tidy to_float float_str df)
  /\ (~ wide -> ~ tidy ->
     detect_layout cols = Undetected /\
     read_incucyte_csv to_float float_str df = Err (ValueError detection_message))
  /\ occurs "Wide: 'time' + one column per group" detection_message = true
  /\ occurs "Tidy: time, group, (replicate), value" detection_message = true.
Proof.
  intros cols wide tidy.
  destruct (detect_layout_spec cols) as (Hw & Ht & Hu).
  unfold read_incucyte_csv. fold cols.
  split; [|split; [|split; [|split]]].
  - intros H. by rewrite (Hw H).
  - intros H1 H2. by rewrite (Ht H1 H2).
  - intros H1 H2. by rewrite (Hu H1 H2).
  - reflexivity.
  - reflexivity.
Qed.

(** C2.  A table with [time], [group] and [value] columns and no [replicate]
    column is not read by the tidy branch: the first test of
    [read_incucyte_csv] sends it to the wide branch, which takes [Group] and
    [Value] for series.  On the frame of the CSV text
    Time,Group,Value / 0,A,1 / 4,A,3 the result has the group [Value] on
    every record instead of the group [A]. *)
Theorem tidy_without_replicate_is_read_wide :
  (forall cols,
     has_column cols "time" -> has_column cols "group" ->
     has_column cols "value" -> ~ has_column cols "replicate" ->
     detect_layout cols = WIDE)
  /\ read_incucyte_csv plain_decimal plain_str
       (mkFrame ["Time"; "Group"; "Value"]
                [[CInt 0; CStr "A"; CInt 1]; [CInt 4; CStr "A"; CInt 3]])
     = Ok (mkTidy (Some ["Group"; "Value"])
                  [mkObs (Fin 0) "Value" "R1" (Fin 1);
                   mkObs (Fin 4) "Value" "R1" (Fin 3)]).
Proof.
  split.
  - intros cols Ht Hg Hv Hr.
    apply (proj1 (detect_layout_spec cols)). split; [done|]. tauto.
  - vm_compute. reflexivity.
Qed.

(** C3.  Time coercion is all-or-nothing.  When every value of the column
    reads directly as a number, the column of those numbers is returned.
    When some value does not, every value, also those that read directly,
    goes through extraction: the first match of the number pattern in the
    text of the value (a run of digits, or digits, a point and digits, with
    no digit before it and none directly after it) is read as a number, and a
    value without a match becomes missing.  The two examples of the
    specification are evaluated with plain decimal reading; in the last
    example the sign of -1 and the exponent of 2.5e3 are lost, because these
    values too went through extraction. *)
Theorem coerce_time_all_or_nothing
    (to_float : string -> float) (float_str : float -> string)
    (col : list cell) :
  (Forall (fun c => to_numeric to_float c <> NaN) col ->
     _coerce_time to_float float_str col = map (to_numeric to_float) col)
  /\ (Exists (fun c => to_numeric to_float c = NaN) col ->
     _coerce_time to_float float_str col
     = map (extract_number to_float float_str) col)
  /\ (forall c m,
     search_number (cell_str float_str c) = Some m ->
     extract_number to_float float_str c = to_float m /\
     decimal_shape m /\
     exists pre post,
       cell_str float_str c = pre +:+ m +:+ post /\
       has_digit pre = false /\ starts_with_digit post = false)
  /\ (forall c,
     search_number (cell_str float_str c) = None ->
     extract_number to_float float_str c = NaN /\
     has_digit (cell_str float_str c) = false)
  /\ _coerce_time plain_decimal plain_str
       [CStr "12h"; CStr "7.5 hrs"; CStr "bad"]
     = [Fin 12%Q; Fin (15 # 2)%Q; NaN]
  /\ _coerce_time plain_decimal plain_str [CStr "1"; CStr "2"; CStr "x"]
     = map (extract_number plain_decimal plain_str)
           [CStr "1"; CStr "2"; CStr "x"]
  /\ _coerce_time plain_decimal plain_str [CStr "-1"; CStr "2.5e3"; CStr "x"]
     = [Fin 1%Q; Fin (5 # 2)%Q; NaN].
Proof.
  split; [apply coerce_time_direct|].
  split; [apply coerce_time_fallback|].
  split; [|split; [|repeat split; reflexivity]].
  - intros c m Hm. unfold extract_number. rewrite Hm.
    split; [done|]. by apply search_number_some.
  - intros c Hn. unfold extract_number. rewrite Hn.
    split; [done|]. by apply search_number_none.
Qed.

(** C4 (amended).  For every identifier that holds no line feed, the
    resolver returns (base, tag) exactly when the identifier is base, an
    underscore, and a tag [R<digits>], [Rep<digits>] or [rep<digits>];
    [_base_group_name] then returns the base; when the identifier has no
    such ending there is no tag and [_base_group_name] returns the
    identifier unchanged. *)
Theorem replicate_suffix_resolver (s : string) :
  has_char line_feed s = false ->
  (forall b t,
     match_replicate_suffix s = Some (b, t) <->
     s = b +:+ "_" +:+ t /\ replicate_tag t)
  /\ (forall b t,
     match_replicate_suffix s = Some (b, t) -> _base_group_name s = b)
  /\ ((forall b t, s = b +:+ "_" +:+ t -> ~ replicate_tag t) ->
     match_replicate_suffix s = None /\ _base_group_name s = s).
Proof.
  intros Hs. split; [|split].
  - intros b t. by apply match_replicate_suffix_iff.
  - intros b t H. unfold _base_group_name. by rewrite H.
  - intros Hno. assert (match_replicate_suffix s = None) as Hn.
    { destruct (match_replicate_suffix s) as [[b t]|] eqn:E; [|done].
      apply match_replicate_suffix_iff in E as [E Ht]; [|done].
      by destruct (Hno b t E). }
    split; [done|]. unfold _base_group_name. by rewrite Hn.
Qed.

Lemma replicate_suffix_resolver_witness :
  match_replicate_suffix "DrugA_R1" = Some ("DrugA", "R1")
  /\ match_replicate_suffix "DrugA_Rep12" = Some ("DrugA", "Rep12")
  /\ _base_group_name "DrugA_Rep12" = "DrugA"
  /\ match_replicate_suffix "ControlGroup" = None
  /\ _base_group_name "ControlGroup" = "ControlGroup".
Proof.
  split; [|split; [|split]].
  - apply (proj1 (replicate_suffix_resolver "DrugA_R1" eq_refl)).
    split; [reflexivity|]. exists "1". split; [reflexivity | by left].
  - apply (proj1 (replicate_suffix_resolver "DrugA_Rep12" eq_refl)).
    split; [reflexivity|]. exists "12". split; [reflexivity | right; by left].
  - apply (proj1 (proj2 (replicate_suffix_resolver "DrugA_Rep12" eq_refl))
             "DrugA" "Rep12").
    reflexivity.
  - apply (proj2 (proj2 (replicate_suffix_resolver "ControlGroup" eq_refl))).
    intros b t E. exfalso. revert E. apply no_underscore_no_split. reflexivity.
Defined.

(** C4, as stated, fails on an identifier with a line feed: the header cell
    that reads Plate 1, line feed, DrugA_R1 ends in the tag [_R1], and the
    resolver returns no tag for it. *)
Lemma resolver_line_feed_counterexample :
  ~ (forall s b t,
       match_replicate_suffix s = Some (b, t) <->
       s = b +:+ "_" +:+ t /\ replicate_tag t).
Proof.
  intros H.
  specialize (H ("Plate 1" +:+ String line_feed "DrugA_R1")
                ("Plate 1" +:+ String line_feed "DrugA") "R1").
  destruct H as [_ H]. discriminate H.
  split; [reflexivity|]. exists "1". split; [reflexivity | by left].
Qed.

(** C5.  In the wide branch the replicate suffix is decided per column name.
    Every record of the result comes from one column other than the time
    column and one row; when the name of that column matches the suffix
    pattern the record has group = base and replicate = tag, and when it
    does not the record has group = the full name and replicate = R1,
    whatever the other columns are called. *)
Theorem wide_suffix_per_column
    (to_float : string -> float) (float_str : float -> string)
    (df : DataFrame) (t : TidyTable) :
  detect_layout (columns df) = WIDE ->
  read_incucyte_csv to_float float_str df = Ok t ->
  Forall
    (fun o =>
       exists time_col j c row,
         lower_map (columns df) !! "time" = Some time_col /\
         columns df !! j = Some c /\ c <> time_col /\ row ∈ rows df /\
         value o = to_numeric to_float (cell_at j row) /\
         match match_replicate_suffix c with
         | Some (b, tag) => group o = b /\ replicate o = tag
         | None => group o = c /\ replicate o = "R1"
         end)
    (records t).
Proof.
  intros Hl Hr. unfold read_incucyte_csv in Hr. rewrite Hl in Hr.
  apply Forall_forall. intros o Ho.
  destruct (read_wide_record _ _ _ _ _ Hr Ho)
    as (time_col & j & c & row & H1 & H2 & H3 & H4 & H5 & H6 & H7).
  exists time_col, j, c, row. repeat (split; [done|]).
  unfold wide_group in H6. unfold wide_replicate in H7.
  by destruct (match_replicate_suffix c) as [[b tag]|].
Qed.

(** The columns A_R1 and A of one table: both records land in the group A,
    with the replicate R1 of the tag and the replicate R1 of the default. *)
Lemma wide_suffix_per_column_witness :
  read_incucyte_csv plain_decimal plain_str
    (mkFrame ["Time"; "A_R1"; "A"] [[CInt 0; CInt 1; CInt 3]])
  = Ok (mkTidy (Some ["A"])
               [mkObs (Fin 0%Q) "A" "R1" (Fin 1%Q);
                mkObs (Fin 0%Q) "A" "R1" (Fin 3%Q)])
  /\ Forall
       (fun o : Obs float =>
          exists time_col j c row,
            lower_map ["Time"; "A_R1"; "A"] !! "time" = Some time_col /\
            ["Time"; "A_R1"; "A"] !! j = Some c /\ c <> time_col /\
            row ∈ [[CInt 0; CInt 1; CInt 3]] /\
            value o = to_numeric plain_decimal (cell_at j row) /\
            match match_replicate_suffix c with
            | Some (b, tag) => group o = b /\ replicate o = tag
            | None => group o = c /\ replicate o = "R1"
            end)
       [mkObs (Fin 0%Q) "A" "R1" (Fin 1%Q);
        mkObs (Fin 0%Q) "A" "R1" (Fin 3%Q)].
Proof.
  split; [vm_compute; reflexivity|].
  exact (wide_suffix_per_column plain_decimal plain_str
           (mkFrame ["Time"; "A_R1"; "A"] [[CInt 0; CInt 1; CInt 3]])
           (mkTidy (Some ["A"])
                   [mkObs (Fin 0%Q) "A" "R1" (Fin 1%Q);
                    mkObs (Fin 0%Q) "A" "R1" (Fin 3%Q)])
           eq_refl eq_refl).
Defined.









(** C10.  The aggregator does not touch its argument.  Called on a reference
    to a frame that holds a tidy table, [aggregate_mean_sd] returns the
    stats table computed from that table and leaves the frame behind the
    reference, and every other frame that existed before the call, as it
    was: the only object written is the copy the call made. *)
Theorem aggregator_leaves_input
    (h : gmap positive (gmap string Column)) (l : positive)
    (df : list (Obs Q)) (interval_hours : option Q) :
  h !! l = Some (frame_of df) ->
  exists h',
    aggregate_mean_sd_heap l interval_hours h
    = Some (aggregate_mean_sd df interval_hours, h')
    /\ h' !! l = Some (frame_of df)
    /\ (forall l', is_Some (h !! l') -> h' !! l' = h !! l')
    /\ dom h' = {[ fresh (dom h) ]} ∪ dom h.
Proof.
  intros Hl.
  destruct (frame_of_lookup df) as (Ht & Hg & Hv).
  assert (h !! fresh (dom h) = None) as Hfresh.
  { apply not_elem_of_dom, is_fresh. }
  set (d := fresh (dom h)) in *.
  assert (forall f l', is_Some (h !! l') -> <[d := f]> h !! l' = h !! l')
    as Hframe.
  { intros f l' [x Hx]. rewrite lookup_insert_ne; [done|]. congruence. }
  assert (forall f, <[d := f]> h !! d = Some f) as Hd
    by (intros; apply lookup_insert_eq).
  unfold aggregate_mean_sd_heap, aggregate_mean_sd.
  unfold mbind at 1. unfold heap_bind at 1. unfold frame_copy at 1.
  rewrite Hl. fold d.
  destruct interval_hours as [iv|]; cbn [grouping_time];
    [destruct (positive_interval iv) eqn:Ep|].
  - (* binning: the column time_bin is added to the copy *)
    exists (<[d := <["time_bin" := FloatCol (map (time_bin iv) (map time df))]>
                    (frame_of df)]> h).
    split; [|split; [|split]].
    + unfold mbind at 1. unfold heap_bind at 1.
      unfold mbind at 1. unfold heap_bind at 1.
      rewrite (frame_get_eq (<[d := frame_of df]> h) d (frame_of df) "time"
                 _ (Hd _) Ht).
      unfold mbind at 1. unfold heap_bind at 1. cbn [heap_lift floats_of].
      unfold mbind at 1. unfold heap_bind at 1. unfold frame_set at 1.
      rewrite Hd, insert_insert_eq. unfold mret at 1. unfold heap_ret at 1.
      apply (group_frame _ d
               (<["time_bin" := FloatCol (map (time_bin iv) (map time df))]>
                  (frame_of df))
               df (time_bin iv) "time_bin").
      * apply lookup_insert_eq.
      * by rewrite lookup_insert_ne.
      * by rewrite lookup_insert_eq, map_map.
      * by rewrite lookup_insert_ne.
    + rewrite Hframe by eauto. done.
    + intros l'. apply Hframe.
    + by rewrite dom_insert_L.
  - exists (<[d := frame_of df]> h). split; [|split; [|split]].
    + unfold mbind at 1. unfold heap_bind at 1.
      unfold mret at 1. unfold heap_ret at 1.
      by apply (group_frame _ d (frame_of df) df (fun t => t) "time").
    + rewrite Hframe by eauto. done.
    + intros l'. apply Hframe.
    + by rewrite dom_insert_L.
  - exists (<[d := frame_of df]> h). split; [|split; [|split]].
    + unfold mbind at 1. unfold heap_bind at 1.
      unfold mret at 1. unfold heap_ret at 1.
      by apply (group_frame _ d (frame_of df) df (fun t => t) "time").
    + rewrite Hframe by eauto. done.
    + intros l'. apply Hframe.
    + by rewrite dom_insert_L.
Qed.

Lemma aggregator_leaves_input_witness :
  exists h',
    aggregate_mean_sd_heap 1%positive (Some 4%Q)
      {[ 1%positive :=
           frame_of [mkObs 0%Q "A" "R1" 1%Q; mkObs 0%Q "A" "R2" 3%Q] ]}
    = Some (aggregate_mean_sd
              [mkObs 0%Q "A" "R1" 1%Q; mkObs 0%Q "A" "R2" 3%Q] (Some 4%Q),
            h')
    /\ h' !! 1%positive
       = Some (frame_of [mkObs 0%Q "A" "R1" 1%Q; mkObs 0%Q "A" "R2" 3%Q])
    /\ (forall l',
          is_Some (({[ 1%positive :=
                         frame_of [mkObs 0%Q "A" "R1" 1%Q;
                                   mkObs 0%Q "A" "R2" 3%Q] ]}
                    : gmap positive (gmap string Column)) !! l') ->
          h' !! l'
          = ({[ 1%positive :=
                  frame_of [mkObs 0%Q "A" "R1" 1%Q;
                            mkObs 0%Q "A" "R2" 3%Q] ]}
             : gmap positive (gmap string Column)) !! l')
    /\ dom h'
       = {[ fresh (dom ({[ 1%positive :=
                             frame_of [mkObs 0%Q "A" "R1" 1%Q;
                                       mkObs 0%Q "A" "R2" 3%Q] ]}
                        : gmap positive (gmap string Column))) ]}
         ∪ dom ({[ 1%positive :=
                     frame_of [mkObs 0%Q "A" "R1" 1%Q;
                               mkObs 0%Q "A" "R2" 3%Q] ]}
                : gmap positive (gmap string Column)).
Proof.
  exact (aggregator_leaves_input
           {[ 1%positive :=
                frame_of [mkObs 0%Q "A" "R1" 1%Q; mkObs 0%Q "A" "R2" 3%Q] ]}
           1%positive
           [mkObs 0%Q "A" "R1" 1%Q; mkObs 0%Q "A" "R2" 3%Q]
           (Some 4%Q) eq_refl).
Defined.

(** * The end-to-end examples of the specification *)

(** The CSV text Time,A,B / 0,1,2 / 4,3,4: four records, groups A then B,
    replicate R1 throughout; four stats rows, each with n = 1 and no sd. *)
Example end_to_end_wide :
  read_incucyte_csv plain_decimal plain_str
    (mkFrame ["Time"; "A"; "B"]
             [[CInt 0; CInt 1; CInt 2]; [CInt 4; CInt 3; CInt 4]])
  = Ok (mkTidy (Some ["A"; "B"])
               [mkObs (Fin 0%Q) "A" "R1" (Fin 1%Q);
                mkObs (Fin 4%Q) "A" "R1" (Fin 3%Q);
                mkObs (Fin 0%Q) "B" "R1" (Fin 2%Q);
                mkObs (Fin 4%Q) "B" "R1" (Fin 4%Q)])
  /\ aggregate_mean_sd
       [mkObs 0%Q "A" "R1" 1%Q; mkObs 4%Q "A" "R1" 3%Q;
        mkObs 0%Q "B" "R1" 2%Q; mkObs 4%Q "B" "R1" 4%Q] None
     = [mkStats "A" 0%Q 1%Q None 1; mkStats "A" 4%Q 3%Q None 1;
        mkStats "B" 0%Q 2%Q None 1; mkStats "B" 4%Q 4%Q None 1].
Proof. split; vm_compute; reflexivity. Qed.

(** The CSV text Time,A_R1,A_R2 / 0,1,3: one group A with replicates R1 and
    R2; the stats row of (A, 0) has mean 2 and n = 2. *)
Example end_to_end_replicates :
  (t ← read_incucyte_csv plain_decimal plain_str
         (mkFrame ["Time"; "A_R1"; "A_R2"] [[CInt 0; CInt 1; CInt 3]]);
   Ok (records t, (fun rows => aggregate_mean_sd rows None) <$> finite_rows t))
  = Ok ([mkObs (Fin 0%Q) "A" "R1" (Fin 1%Q);
         mkObs (Fin 0%Q) "A" "R2" (Fin 3%Q)],
        Some [mkStats "A" 0%Q 2%Q (Some (Sqrt 2%Q)) 2]).
Proof. vm_compute. reflexivity. Qed.

(** The columns foo,bar satisfy neither layout. *)
Example detection_failure :
  read_incucyte_csv plain_decimal plain_str (mkFrame ["foo"; "bar"] [])
  = Err (ValueError detection_message).
Proof. reflexivity. Qed.

(** * Further properties of the code *)

(** ** The replicate-suffix resolver on every text *)

Lemma length_append (a b : string) :
  String.length (a +:+ b) = (String.length a + String.length b)%nat.
Proof.
  induction a as [|x a IH]; [done|].
  rewrite append_cons. simpl. by rewrite IH.
Qed.

Lemma append_self_empty (a b : string) : a = a +:+ b -> b = "".
Proof.
  intros H. apply (f_equal String.length) in H.
  rewrite length_append in H. destruct b; [done | simpl in H; lia].
Qed.

(** X1.  The resolver on any identifier, line feeds included: it returns
    (base, tag) exactly when the base holds no line feed, the tag is one of
    R, Rep, rep followed by digits, and the identifier is base, underscore,
    tag, optionally followed by one final line feed. *)
Theorem resolver_exact (s b t : string) :
  match_replicate_suffix s = Some (b, t) <->
  has_char line_feed b = false /\ replicate_tag t /\
  (s = b +:+ "_" +:+ t \/ s = b +:+ "_" +:+ t +:+ String line_feed "").
Proof.
  split.
  - intros (Ht & Hb & Hs)%match_replicate_suffix_sound.
    by rewrite <- is_replicate_tag_spec.
  - intros (Hb & Ht%is_replicate_tag_spec & [-> | ->]);
      by apply match_replicate_suffix_complete.
Qed.

(** X2.  [_base_group_name] returns a prefix of its argument, the whole
    argument exactly when the pattern does not match, and it strips one
    suffix only: of two tags in a row the first stays in the base. *)
Theorem base_group_name_prefix (s : string) :
  (exists rest, s = _base_group_name s +:+ rest)
  /\ (_base_group_name s = s <-> match_replicate_suffix s = None)
  /\ (forall b t1 t2,
        has_char line_feed b = false ->
        replicate_tag t1 -> replicate_tag t2 ->
        _base_group_name (b +:+ "_" +:+ t1 +:+ "_" +:+ t2)
        = b +:+ "_" +:+ t1).
Proof.
  unfold _base_group_name. split; [|split].
  - destruct (match_replicate_suffix s) as [[b t]|] eqn:E.
    + apply match_replicate_suffix_sound in E as (_ & _ & [-> | ->]); eauto.
    + exists "". by rewrite append_empty_r.
  - destruct (match_replicate_suffix s) as [[b t]|] eqn:E; [|done].
    split; [|done]. intros ->.
    apply match_replicate_suffix_sound in E as (_ & _ & [E | E]);
      apply append_self_empty in E; discriminate.
  - intros b t1 t2 Hb Ht1%is_replicate_tag_spec Ht2%is_replicate_tag_spec.
    destruct (replicate_tag_chars t1 Ht1) as [_ Hl1].
    assert (has_char line_feed (b +:+ "_" +:+ t1) = false) as Hb1.
    { rewrite !has_char_append, Hb, Hl1. reflexivity. }
    destruct (match_replicate_suffix_complete (b +:+ "_" +:+ t1) t2 Hb1 Ht2)
      as [E _].
    rewrite !append_assoc in E. by rewrite E.
Qed.

(** ** Detection and the two branches *)

Lemma has_column_dec (cols : list string) (k : string) :
  has_column cols k \/ ~ has_column cols k.
Proof.
  rewrite <- elem_of_cols_lower.
  destruct (decide (k ∈ cols_lower cols)); auto.
Qed.

(** X3.  The format-detection error is raised exactly for the tables that
    have no column named time (case ignored): a table with such a column
    always goes to one of the two branches, whatever its other columns. *)
Theorem detection_fails_iff_no_time
    (to_float : string -> float) (float_str : float -> string)
    (df : DataFrame) :
  (detect_layout (columns df) = Undetected <-> ~ has_column (columns df) "time")
  /\ (~ has_column (columns df) "time" ->
      read_incucyte_csv to_float float_str df
      = Err (ValueError detection_message))
  /\ (has_column (columns df) "time" ->
      read_incucyte_csv to_float float_str df = read_wide to_float float_str df
      \/ read_incucyte_csv to_float float_str df
         = read_tidy to_float float_str df).
Proof.
  destruct (detect_layout_spec (columns df)) as (Hw & Ht & Hu).
  assert (has_column (columns df) "time" ->
          detect_layout (columns df) = WIDE \/
          detect_layout (columns df) = TIDY) as Htime.
  { intros Htm.
    destruct (has_column_dec (columns df) "group") as [Hg|Hg];
    destruct (has_column_dec (columns df) "replicate") as [Hr|Hr];
    destruct (has_column_dec (columns df) "value") as [Hv|Hv];
      try (left; apply Hw; tauto).
    right. apply Ht; tauto. }
  assert (~ has_column (columns df) "time" ->
          detect_layout (columns df) = Undetected) as Hno.
  { intros Hn. apply Hu; tauto. }
  split; [|split].
  - split; [|exact Hno].
    intros E Htm. destruct (Htime Htm); congruence.
  - intros Hn. unfold read_incucyte_csv. by rewrite (Hno Hn).
  - intros Htm. unfold read_incucyte_csv.
    destruct (Htime Htm) as [-> | ->]; auto.
Qed.

Section BranchFacts.

Variable to_float : string -> float.
Variable float_str : float -> string.

Lemma wide_records_in_categories (df : DataFrame) (t : TidyTable) :
  read_wide to_float float_str df = Ok t ->
  exists cats,
    group_categories t = Some cats /\ NoDup cats /\
    Forall (fun o => group o ∈ cats) (records t).
Proof.
  intros Hr.
  destruct (read_wide_Ok _ _ _ _ Hr) as (time_col & long & Hlm & _ & Hcat & _).
  eexists. split; [exact Hcat|]. split.
  - rewrite group_order_spec. apply NoDup_first_occurrences.
  - apply Forall_forall. intros o Ho.
    destruct (read_wide_record _ _ _ _ _ Hr Ho)
      as (tc & j & c & row & Hlm' & Hj & Hne & _ & _ & Hg & _).
    assert (tc = time_col) as -> by congruence.
    rewrite Hg. apply wide_group_in_order.
    apply list_elem_of_filter. split; [done|].
    apply list_elem_of_lookup. eauto.
Qed.

End BranchFacts.

(** X4.  In a table of the wide branch the categories of [group] are
    pairwise different, as [pd.Categorical] requires, and the group of every
    record is one of them: the conversion to a categorical leaves no group
    missing. *)
Theorem wide_groups_are_categories
    (to_float : string -> float) (float_str : float -> string)
    (df : DataFrame) (t : TidyTable) :
  detect_layout (columns df) = WIDE ->
  read_incucyte_csv to_float float_str df = Ok t ->
  exists cats,
    group_categories t = Some cats /\ NoDup cats /\
    Forall (fun o => group o ∈ cats) (records t).
Proof.
  intros Hl Hr. unfold read_incucyte_csv in Hr. rewrite Hl in Hr.
  by apply (wide_records_in_categories to_float float_str df).
Qed.

Lemma wide_groups_are_categories_witness :
  exists cats,
    group_categories
      (mkTidy (Some ["A"; "B"])
              [mkObs (Fin 0%Q) "A" "R1" (Fin 1%Q);
               mkObs (Fin 0%Q) "B" "R1" (Fin 2%Q);
               mkObs (Fin 0%Q) "A" "R2" (Fin 3%Q)]) = Some cats
    /\ NoDup cats
    /\ Forall (fun o : Obs float => group o ∈ cats)
         (records
            (mkTidy (Some ["A"; "B"])
                    [mkObs (Fin 0%Q) "A" "R1" (Fin 1%Q);
                     mkObs (Fin 0%Q) "B" "R1" (Fin 2%Q);
                     mkObs (Fin 0%Q) "A" "R2" (Fin 3%Q)])).
Proof.
  exact (wide_groups_are_categories plain_decimal plain_str
           (mkFrame ["Time"; "A_R1"; "B"; "A_R2"]
                    [[CInt 0; CInt 1; CInt 2; CInt 3]])
           _ eq_refl eq_refl).
Defined.

Lemma positions_from_none (i : nat) (x : string) (l : list string) :
  (forall k, l !! k <> Some x) -> positions_from i x l = [].
Proof.
  revert i. induction l as [|c cs IH]; intros i Hno; [done|].
  simpl. destruct (decide (c = x)) as [->|_].
  - by destruct (Hno 0%nat).
  - apply IH. intros k. exact (Hno (S k)).
Qed.

(** A label that occurs at exactly one position selects that position. *)
Lemma positions_from_unique (i : nat) (x : string) (l : list string) (j : nat) :
  l !! j = Some x ->
  (forall j', l !! j' = Some x -> j' = j) ->
  positions_from i x l = [(i + j)%nat].
Proof.
  revert i j. induction l as [|c cs IH]; intros i j Hj Huniq; [done|].
  simpl. destruct (decide (c = x)) as [->|Hne].
  - assert (j = 0%nat) as -> by (symmetry; by apply Huniq).
    rewrite positions_from_none; [by rewrite Nat.add_0_r|].
    intros k Hk. specialize (Huniq (S k) Hk). discriminate.
  - destruct j as [|j]; [simpl in Hj; congruence|].
    rewrite (IH (S i) j); [f_equal; lia | done |].
    intros j' Hj'. specialize (Huniq (S j') Hj'). congruence.
Qed.

Lemma positions_unique (x : string) (l : list string) (j : nat) :
  l !! j = Some x ->
  (forall j', l !! j' = Some x -> j' = j) ->
  positions x l = [j].
Proof.
  intros Hj Hu. unfold positions.
  by rewrite (positions_from_unique 0 x l j Hj Hu).
Qed.

Lemma lower_index_unique (cols : list string) j j' c c' :
  NoDup (map lower cols) ->
  cols !! j = Some c -> cols !! j' = Some c' -> lower c = lower c' -> j = j'.
Proof.
  intros Hnd Hj Hj' Hl.
  apply (NoDup_lookup (map lower cols) j j' (lower c) Hnd).
  - by rewrite map_fmap, list_lookup_fmap, Hj.
  - by rewrite map_fmap, list_lookup_fmap, Hj', Hl.
Qed.

Lemma required_renaming_key (lm : gmap string string) (c k : string) :
  required_renaming lm !! c = Some k -> k ∈ ["time"; "group"; "value"].
Proof.
  unfold required_renaming. simpl.
  destruct (lm !! "time") as [vt|]; destruct (lm !! "group") as [vg|];
  destruct (lm !! "value") as [vv|];
  rewrite ?lookup_insert, ?lookup_empty;
  repeat case_decide; intros [= <-]; rewrite !elem_of_cons; tauto.
Qed.

Lemma required_renaming_hit (lm : gmap string string) (k v : string) :
  k ∈ ["time"; "group"; "value"] ->
  lm !! k = Some v ->
  (forall k', lm !! k' = Some v -> k' = k) ->
  required_renaming lm !! v = Some k.
Proof.
  intros Hk Hv Hinj. unfold required_renaming. simpl.
  rewrite !elem_of_cons, elem_of_nil in Hk.
  destruct (lm !! "time") as [vt|] eqn:Et;
  destruct (lm !! "group") as [vg|] eqn:Eg;
  destruct (lm !! "value") as [vv|] eqn:Ev;
  rewrite ?lookup_insert, ?lookup_empty;
  repeat case_decide; subst;
  try (specialize (Hinj _ Et)); try (specialize (Hinj _ Eg));
  try (specialize (Hinj _ Ev));
  destruct Hk as [?|[?|[?|[]]]]; congruence.
Qed.

Lemma rename_lookup_fwd (f : gmap string string) (labels : list string) j c0 :
  labels !! j = Some c0 -> rename f labels !! j = Some (default c0 (f !! c0)).
Proof.
  intros H. unfold rename. by rewrite map_fmap, list_lookup_fmap, H.
Qed.

Lemma lower_map_inj (cols : list string) (k k' v : string) :
  lower_map cols !! k = Some v -> lower_map cols !! k' = Some v -> k' = k.
Proof.
  intros [_ H1]%lower_map_lookup [_ H2]%lower_map_lookup. congruence.
Qed.

Lemma tidy_names_lower (k : string) :
  k ∈ ["time"; "group"; "value"; "replicate"] -> lower k = k.
Proof.
  rewrite !elem_of_cons, elem_of_nil.
  intros [->|[->|[->|[->|[]]]]]; reflexivity.
Qed.

(** The labels of the tidy branch after both renamings, when the table has a
    replicate column. *)
Lemma tidy_labels_origin (cols : list string) (rep_col k : string) j :
  lower_map cols !! "replicate" = Some rep_col ->
  k ∈ ["time"; "group"; "value"; "replicate"] ->
  rename_label rep_col "replicate"
    (rename (required_renaming (lower_map cols)) cols) !! j = Some k ->
  exists c0, cols !! j = Some c0 /\ lower c0 = k.
Proof.
  intros Hrep Hk Hj.
  destruct (lower_map_lookup _ _ _ Hrep) as [_ Hlrep].
  apply rename_label_lookup in Hj as (c1 & Hc1 & Hk1).
  apply rename_lookup in Hc1 as (c0 & Hc0 & Hor).
  exists c0. split; [done|].
  destruct (decide (c1 = rep_col)) as [->|Hne].
  - subst k. destruct Hor as [<-|Hf]; [done|].
    apply required_renaming_key in Hf.
    rewrite !elem_of_cons, elem_of_nil in Hf.
    destruct Hf as [E|[E|[E|[]]]]; rewrite E in Hlrep; discriminate.
  - subst c1. destruct Hor as [<-|Hf]; [by apply tidy_names_lower|].
    pose proof (required_renaming_lookup _ _ _ Hf) as Hlm.
    by apply lower_map_lookup in Hlm as [_ ?].
Qed.

Lemma tidy_labels_required (cols : list string) (rep_col k v : string) j :
  lower_map cols !! "replicate" = Some rep_col ->
  k ∈ ["time"; "group"; "value"] ->
  lower_map cols !! k = Some v -> cols !! j = Some v ->
  rename_label rep_col "replicate"
    (rename (required_renaming (lower_map cols)) cols) !! j = Some k.
Proof.
  intros Hrep Hk Hv Hj.
  destruct (lower_map_lookup _ _ _ Hrep) as [_ Hlrep].
  apply rename_label_lookup. exists k. split.
  - rewrite (rename_lookup_fwd _ _ _ _ Hj).
    rewrite (required_renaming_hit _ k v Hk Hv); [done|].
    intros k' Hk'. by apply (lower_map_inj cols k k' v).
  - rewrite decide_False; [done|]. intros ->.
    rewrite !elem_of_cons, elem_of_nil in Hk.
    destruct Hk as [E|[E|[E|[]]]]; rewrite E in Hlrep; discriminate.
Qed.

Lemma tidy_labels_replicate (cols : list string) (rep_col : string) j :
  lower_map cols !! "replicate" = Some rep_col ->
  cols !! j = Some rep_col ->
  rename_label rep_col "replicate"
    (rename (required_renaming (lower_map cols)) cols) !! j
  = Some "replicate".
Proof.
  intros Hrep Hj.
  destruct (lower_map_lookup _ _ _ Hrep) as [_ Hlrep].
  apply rename_label_lookup. exists rep_col. split.
  - rewrite (rename_lookup_fwd _ _ _ _ Hj).
    destruct (required_renaming (lower_map cols) !! rep_col) as [k|] eqn:E;
      [|done].
    exfalso. pose proof (required_renaming_key _ _ _ E) as Hk.
    apply required_renaming_lookup, lower_map_lookup in E as [_ E].
    rewrite Hlrep in E. subst k.
    rewrite !elem_of_cons, elem_of_nil in Hk.
    destruct Hk as [?|[?|[?|[]]]]; discriminate.
  - by rewrite decide_True.
Qed.


Lemma get_column_unique (cols labels : list string) (data : list (list cell))
    (k : string) j c :
  NoDup (map lower cols) ->
  cols !! j = Some c -> lower c = k ->
  labels !! j = Some k ->
  (forall j', labels !! j' = Some k ->
              exists c0, cols !! j' = Some c0 /\ lower c0 = k) ->
  get_column labels data k = Ok (column_at j data).
Proof.
  intros Hnd Hj Hl Hlab Horig. unfold get_column.
  rewrite (positions_unique k labels j); [done | done |].
  intros j' Hj'. destruct (Horig j' Hj') as (c0 & Hc0 & Hl0).
  apply (lower_index_unique cols j' j c0 c Hnd Hc0 Hj). congruence.
Qed.

Lemma detect_tidy_columns (cols : list string) :
  detect_layout cols = TIDY <->
  has_column cols "time" /\ has_column cols "group" /\
  has_column cols "replicate" /\ has_column cols "value".
Proof.
  destruct (detect_layout_spec cols) as (Hw & Ht & Hu).
  destruct (has_column_dec cols "time") as [Htm|Htm];
  destruct (has_column_dec cols "group") as [Hg|Hg];
  destruct (has_column_dec cols "replicate") as [Hr|Hr];
  destruct (has_column_dec cols "value") as [Hv|Hv];
    try (split; [|tauto]; intros E; rewrite Hw in E by tauto; discriminate);
    try (split; [|tauto]; intros E; rewrite Hu in E by tauto; discriminate).
  split; [tauto|]. intros _. apply Ht; tauto.
Qed.

Section SuccessFacts.

Variable to_float : string -> float.
Variable float_str : float -> string.

Lemma read_wide_total (df : DataFrame) :
  has_column (columns df) "time" ->
  NoDup (map lower (columns df)) ->
  "value" ∉ columns df ->
  exists t, read_wide to_float float_str df = Ok t.
Proof.
  intros Htm Hnd Hval.
  apply lower_map_is_Some in Htm as [time_col Hlm].
  destruct (lower_map_lookup _ _ _ Hlm) as [Hin Hlow].
  apply list_elem_of_lookup in Hin as [j Hj].
  unfold read_wide. rewrite Hlm. unfold melt.
  rewrite decide_False.
  2:{ intros [i Hi]%list_elem_of_lookup.
      apply rename_label_lookup in Hi as (c0 & Hc0 & Hi).
      destruct (decide (c0 = time_col)); [discriminate|].
      subst c0. apply Hval, list_elem_of_lookup. eauto. }
  rewrite (positions_unique "time" _ j).
  - cbn [mbind result_bind]. eauto.
  - apply rename_label_lookup. exists time_col. by rewrite decide_True.
  - intros j' Hj'. apply rename_label_lookup in Hj' as (c0 & Hc0 & Hk).
    apply (lower_index_unique (columns df) j' j c0 time_col Hnd Hc0 Hj).
    rewrite Hlow. destruct (decide (c0 = time_col)) as [->|_]; [done|].
    by subst c0.
Qed.

(** The tidy branch on a table whose labels differ even when case is
    ignored: it succeeds, with one candidate record per row, made of the
    cells of the four recognised columns. *)
Lemma read_tidy_total (df : DataFrame) :
  detect_layout (columns df) = TIDY ->
  NoDup (map lower (columns df)) ->
  exists jt jg jr jv,
    read_tidy to_float float_str df
    = Ok (mkTidy None
            (filter (fun o => resolved o = true)
               (zip4 (_coerce_time to_float float_str
                        (column_at jt (rows df)))
                     (map (cell_str float_str) (column_at jg (rows df)))
                     (map (cell_str float_str) (column_at jr (rows df)))
                     (map (to_numeric to_float) (column_at jv (rows df)))))).
Proof.
  intros (Htm & Hg & Hr & Hv)%detect_tidy_columns Hnd.
  apply lower_map_is_Some in Htm as [vt Hvt].
  apply lower_map_is_Some in Hg as [vg Hvg].
  apply lower_map_is_Some in Hr as [vr Hvr].
  apply lower_map_is_Some in Hv as [vv Hvv].
  destruct (lower_map_lookup _ _ _ Hvt) as [[jt Hjt]%list_elem_of_lookup Hlt].
  destruct (lower_map_lookup _ _ _ Hvg) as [[jg Hjg]%list_elem_of_lookup Hlg].
  destruct (lower_map_lookup _ _ _ Hvr) as [[jr Hjr]%list_elem_of_lookup Hlr].
  destruct (lower_map_lookup _ _ _ Hvv) as [[jv Hjv]%list_elem_of_lookup Hlv].
  exists jt, jg, jr, jv. unfold read_tidy. rewrite Hvr.
  rewrite (get_column_unique (columns df) _ (rows df) "time" jt vt Hnd Hjt Hlt).
  2:{ apply (tidy_labels_required _ vr "time" vt); [done| |done|done].
      rewrite !elem_of_cons. tauto. }
  2:{ intros j'. apply tidy_labels_origin; [done|].
      rewrite !elem_of_cons. tauto. }
  rewrite (get_column_unique (columns df) _ (rows df) "group" jg vg Hnd Hjg Hlg).
  2:{ apply (tidy_labels_required _ vr "group" vg); [done| |done|done].
      rewrite !elem_of_cons. tauto. }
  2:{ intros j'. apply tidy_labels_origin; [done|].
      rewrite !elem_of_cons. tauto. }
  rewrite (get_column_unique (columns df) _ (rows df) "replicate" jr vr
             Hnd Hjr Hlr).
  2:{ by apply tidy_labels_replicate. }
  2:{ intros j'. apply tidy_labels_origin; [done|].
      rewrite !elem_of_cons. tauto. }
  rewrite (get_column_unique (columns df) _ (rows df) "value" jv vv Hnd Hjv Hlv).
  2:{ apply (tidy_labels_required _ vr "value" vv); [done| |done|done].
      rewrite !elem_of_cons. tauto. }
  2:{ intros j'. apply tidy_labels_origin; [done|].
      rewrite !elem_of_cons. tauto. }
  reflexivity.
Qed.


End SuccessFacts.



(** X6.  [read_incucyte_csv] returns a table for every frame that has a
    time column and whose labels differ pairwise even when case is ignored,
    provided that in the wide layout no column is labelled exactly value
    (the label [melt] reserves for its own value column). *)
Theorem read_succeeds_on_distinct_labels
    (to_float : string -> float) (float_str : float -> string)
    (df : DataFrame) :
  has_column (columns df) "time" ->
  NoDup (map lower (columns df)) ->
  (detect_layout (columns df) = WIDE -> "value" ∉ columns df) ->
  exists t, read_incucyte_csv to_float float_str df = Ok t.
Proof.
  intros Htm Hnd Hval. unfold read_incucyte_csv.
  destruct (detect_layout (columns df)) eqn:El.
  - by apply read_wide_total; [| |apply Hval].
  - destruct (read_tidy_total to_float float_str df El Hnd)
      as (jt & jg & jr & jv & ->). eauto.
  - exfalso.
    destruct (detect_layout_spec (columns df)) as (Hw & Ht & _).
    destruct (has_column_dec (columns df) "group") as [Hg|Hg];
    destruct (has_column_dec (columns df) "replicate") as [Hr|Hr];
    destruct (has_column_dec (columns df) "value") as [Hv|Hv];
      try (rewrite Hw in El by tauto; discriminate).
    rewrite Ht in El by tauto. discriminate.
Qed.

Lemma read_succeeds_on_distinct_labels_witness :
  exists t,
    read_incucyte_csv plain_decimal plain_str
      (mkFrame ["Time"; "A_R1"; "A_R2"; "B"]
               [[CInt 0; CInt 1; CInt 3; CStr "n.d."]]) = Ok t.
Proof.
  apply (read_succeeds_on_distinct_labels plain_decimal plain_str
           (mkFrame ["Time"; "A_R1"; "A_R2"; "B"]
                    [[CInt 0; CInt 1; CInt 3; CStr "n.d."]])).
  - exists "Time". split; [|reflexivity]. apply elem_of_cons. by left.
  - vm_compute. repeat constructor; rewrite ?elem_of_cons, ?elem_of_nil;
      intros H; repeat destruct H as [H|H]; try discriminate H; done.
  - intros _. cbn [columns]. rewrite !elem_of_cons, elem_of_nil.
    intros H; repeat destruct H as [H|H]; try discriminate H; done.
Defined.

(** ** The aggregator: counts and order *)






Lemma length_insert_key (k : key) (l : list key) :
  length (insert_key k l) = S (length l).
Proof.
  induction l as [|a l IH]; [done|].
  simpl. destruct (key_leb k a); simpl; by rewrite ?IH.
Qed.

Lemma length_sort_keys (l : list key) : length (sort_keys l) = length l.
Proof.
  induction l as [|a l IH]; [done|].
  simpl. by rewrite length_insert_key, IH.
Qed.

Lemma length_filter_split {A} (f : A -> bool) (l : list A) :
  (length (filter (fun x => f x = true) l)
   + length (filter (fun x => f x = false) l))%nat = length l.
Proof.
  induction l as [|x l IH]; [done|].
  destruct (f x) eqn:E.
  - rewrite filter_cons_True, (filter_cons_False (fun x => f x = false))
      by (by rewrite ?E). simpl. lia.
  - rewrite filter_cons_False, (filter_cons_True (fun x => f x = false))
      by (by rewrite ?E). simpl. lia.
Qed.

(** A further key adds one distinct key exactly when no key of the list is
    equal to it. *)
Lemma length_distinct_keys_cons (k : key) (ks : list key) :
  length (distinct_keys (k :: ks))
  = (length (distinct_keys ks)
     + if existsb (fun k' => key_eqb k' k) ks then 0 else 1)%nat.
Proof.
  cbn [distinct_keys length].
  pose proof (length_filter_split (key_eqb k) (distinct_keys ks)) as Hs.
  pose proof (count_key_distinct k ks) as Hc. unfold count_key in Hc.
  rewrite (list_filter_iff _ (fun k' => key_eqb k k' = true)) in Hc
    by (intros k'; by rewrite (key_eqb_sym k' k)).
  destruct (existsb _ ks); lia.
Qed.


(** A map on keys that sends equal keys to equal keys does not raise the
    number of distinct keys. *)
Lemma length_distinct_keys_map (f : key -> key) (ks : list key) :
  (forall a b, key_eqb a b = true -> key_eqb (f a) (f b) = true) ->
  (length (distinct_keys (map f ks)) <= length (distinct_keys ks))%nat.
Proof.
  intros Hf. induction ks as [|k ks IH]; [done|].
  cbn [map]. rewrite !length_distinct_keys_cons.
  destruct (existsb (fun k' => key_eqb k' k) ks) eqn:E.
  - apply existsb_key in E as (k' & Hk' & Heq).
    assert (existsb (fun k'' => key_eqb k'' (f k)) (map f ks) = true) as ->.
    { apply existsb_key. exists (f k'). split; [|by apply Hf].
      apply list_elem_of_In, in_map, list_elem_of_In, Hk'. }
    lia.
  - destruct (existsb _ (map f ks)); lia.
Qed.

Lemma grouping_time_proper (interval_hours : option Q) (t t' : Q) :
  (t == t')%Q ->
  (grouping_time interval_hours t == grouping_time interval_hours t')%Q.
Proof.
  intros Ht. destruct interval_hours as [h|]; [|done]. simpl.
  destruct (positive_interval h); [|done].
  unfold time_bin. rewrite !Qred_correct. by rewrite Ht.
Qed.

Lemma length_agg (keyed : list (key * Q)) :
  length (agg keyed) = length (distinct_keys (map fst keyed)).
Proof. unfold agg. by rewrite length_map, length_sort_keys. Qed.


(** X8.  Binning merges rows of the result and never splits them: two rows
    of the frame that fall under one key without binning fall under one key
    with it, and the binned stats table has at most as many rows as the
    table that is not binned. *)
Theorem binning_merges_keys
    (df : list (Obs Q)) (interval_hours : option Q) :
  (forall o1 o2,
     key_eqb (row_key None o1) (row_key None o2) = true ->
     key_eqb (row_key interval_hours o1) (row_key interval_hours o2) = true)
  /\ (length (aggregate_mean_sd df interval_hours)
      <= length (aggregate_mean_sd df None))%nat.
Proof.
  assert (forall a b : key, key_eqb a b = true ->
            key_eqb (a.1, grouping_time interval_hours a.2)
                    (b.1, grouping_time interval_hours b.2) = true) as Hf.
  { intros a b [H1 H2]%key_eqb_true. apply key_eqb_true.
    split; [done|]. by apply grouping_time_proper. }
  split.
  - intros o1 o2 H. apply (Hf _ _ H).
  - unfold aggregate_mean_sd. rewrite !length_agg, !map_map. cbn [fst].
    pose proof (length_distinct_keys_map
                  (fun a : key => (a.1, grouping_time interval_hours a.2))
                  (map (fun o : Obs Q => (group o, grouping_time None (time o)))
                       df) Hf) as Hle.
    rewrite map_map in Hle. exact Hle.
Qed.

Lemma compare_refl (s : string) : String.compare s s = Eq.
Proof. by apply OrderedTypeEx.String_as_OT.cmp_eq. Qed.

Lemma compare_Lt_trans (a b c : string) :
  String.compare a b = Lt -> String.compare b c = Lt ->
  String.compare a c = Lt.
Proof.
  intros H1 H2.
  apply OrderedTypeEx.String_as_OT.cmp_lt.
  apply (OrderedTypeEx.String_as_OT.lt_trans a b c);
    by apply OrderedTypeEx.String_as_OT.cmp_lt.
Qed.

Lemma key_leb_trans (a b c : key) :
  key_leb a b = true -> key_leb b c = true -> key_leb a c = true.
Proof.
  unfold key_leb.
  destruct (String.compare a.1 b.1) eqn:Eab; [| |discriminate];
  destruct (String.compare b.1 c.1) eqn:Ebc; try discriminate.
  - apply String.compare_eq_iff in Eab, Ebc.
    rewrite Eab, Ebc, compare_refl, !Qle_bool_iff. apply Qle_trans.
  - apply String.compare_eq_iff in Eab. by rewrite Eab, Ebc.
  - apply String.compare_eq_iff in Ebc. by rewrite <- Ebc, Eab.
  - by rewrite (compare_Lt_trans _ _ _ Eab Ebc).
Qed.

Lemma key_leb_total (a b : key) : key_leb a b = false -> key_leb b a = true.
Proof.
  unfold key_leb. rewrite (String.compare_antisym a.1 b.1).
  destruct (String.compare b.1 a.1); simpl; try done.
  intros H. apply Qle_bool_iff. apply Qlt_le_weak, Qnot_le_lt.
  intros Hle. apply Qle_bool_iff in Hle. congruence.
Qed.

Lemma insert_key_sorted (k : key) (l : list key) :
  Sorted.StronglySorted (fun a b => key_leb a b = true) l ->
  Sorted.StronglySorted (fun a b => key_leb a b = true) (insert_key k l).
Proof.
  induction 1 as [|a l Hs IH Ha]; simpl.
  - constructor; constructor.
  - destruct (key_leb k a) eqn:E.
    + constructor; [by constructor|]. constructor; [done|].
      eapply Forall_impl; [exact Ha|].
      intros b Hb. by apply (key_leb_trans k a b).
    + constructor; [done|].
      apply Forall_forall. intros b [->|Hb]%elem_of_insert_key.
      * by apply key_leb_total.
      * by apply (proj1 (Forall_forall _ _) Ha).
Qed.

Lemma sort_keys_sorted (l : list key) :
  Sorted.StronglySorted (fun a b => key_leb a b = true) (sort_keys l).
Proof.
  induction l as [|a l IH]; simpl; [constructor|].
  by apply insert_key_sorted.
Qed.

Lemma count_key_elem (k : key) (l : list key) :
  k ∈ l -> (1 <= count_key k l)%nat.
Proof.
  induction l as [|a l IH]; [by intros ?%elem_of_nil|].
  rewrite elem_of_cons, count_key_cons. intros [->|H].
  - rewrite key_eqb_refl. lia.
  - specialize (IH H). lia.
Qed.

Lemma key_lt_of_leb (a b : key) :
  key_leb a b = true -> key_eqb a b = false -> key_lt a b.
Proof.
  unfold key_leb, key_eqb, key_lt.
  destruct (String.compare a.1 b.1) eqn:E; [|by left|discriminate].
  apply String.compare_eq_iff in E. rewrite E, String.eqb_refl. simpl.
  intros Hle%Qle_bool_iff Hne. right. split; [done|].
  apply Qle_lteq in Hle as [Hlt|Heq]; [done|].
  apply Qeq_bool_iff in Heq. congruence.
Qed.

(** A list sorted by [key_leb] that holds no key twice is strictly sorted. *)
Lemma sorted_strict (l : list key) :
  Sorted.StronglySorted (fun a b => key_leb a b = true) l ->
  (forall k, (count_key k l <= 1)%nat) ->
  Sorted.StronglySorted key_lt l.
Proof.
  induction 1 as [|a l Hs IH Ha]; intros Hc; constructor.
  - apply IH. intros k. specialize (Hc k). rewrite count_key_cons in Hc. lia.
  - apply Forall_forall. intros b Hb.
    apply key_lt_of_leb; [by apply (proj1 (Forall_forall _ _) Ha)|].
    destruct (key_eqb a b) eqn:E; [|done].
    specialize (Hc b). rewrite count_key_cons, E in Hc.
    pose proof (count_key_elem b l Hb). lia.
Qed.

(** X9.  For a frame whose group column holds text, the stats table comes
    sorted by group and, within a group, by time, strictly: each row stands
    before every later row in that order. *)
Theorem aggregator_rows_sorted
    (df : list (Obs Q)) (interval_hours : option Q) :
  Sorted.StronglySorted key_lt
    (map stats_key (aggregate_mean_sd df interval_hours)).
Proof.
  unfold aggregate_mean_sd. rewrite agg_keys.
  apply sorted_strict; [apply sort_keys_sorted|].
  intros k. rewrite count_key_sort, count_key_distinct.
  destruct (existsb _ _); lia.
Qed.

(** ** Binning *)






(** X11.  The guard of the script on the interval it read is the guard the
    aggregator applies itself: passing the interval as read gives the same
    stats table, and an interval that is not positive, as the default 0 of
    the input field, gives the table without binning. *)
Theorem interval_setting_guard (df : list (Obs Q)) (interval : Q) :
  aggregate_mean_sd df (interval_setting interval)
  = aggregate_mean_sd df (Some interval)
  /\ ((interval <= 0)%Q ->
      interval_setting interval = None /\
      aggregate_mean_sd df (Some interval) = aggregate_mean_sd df None)
  /\ ((0 < interval)%Q -> interval_setting interval = Some interval).
Proof.
  unfold interval_setting, aggregate_mean_sd, grouping_time.
  split; [|split].
  - by destruct (positive_interval interval) eqn:E; rewrite ?E.
  - intros H. by rewrite (positive_interval_false _ H).
  - intros H. by rewrite (positive_interval_true _ H).
Qed.

(** ** The script: legend, group table, merge *)

Lemma first_occurrences_snoc (l : list string) (x : string) :
  first_occurrences (l ++ [x])
  = if decide (x ∈ l) then first_occurrences l else first_occurrences l ++ [x].
Proof.
  induction l as [|y l IH]; [done|].
  cbn [app first_occurrences]. rewrite IH.
  destruct (decide (x = y)) as [->|Hne].
  - rewrite (decide_True (P := y ∈ y :: l)) by (apply elem_of_cons; by left).
    destruct (decide (y ∈ l)); [done|].
    rewrite filter_app, filter_cons_False by (intros H; by apply H).
    by rewrite filter_nil, app_nil_r.
  - destruct (decide (x ∈ l)) as [Hin|Hin].
    + by rewrite (decide_True (P := x ∈ y :: l)) by (apply elem_of_cons; by right).
    + rewrite (decide_False (P := x ∈ y :: l))
        by (rewrite elem_of_cons; intros [?|?]; done).
      by rewrite filter_app, filter_cons_True by done.
Qed.

Lemma find_snoc {A} (f : A -> bool) (l : list A) (x : A) :
  List.find f (l ++ [x])
  = match List.find f l with
    | Some y => Some y
    | None => if f x then Some x else None
    end.
Proof.
  induction l as [|y l IH]; [done|].
  simpl. by destruct (f y).
Qed.

Lemma find_label_None {H} (l : string) (p : list (H * string)) :
  l ∉ map snd p ->
  List.find (fun q : H * string => bool_decide (q.2 = l)) p = None.
Proof.
  intros Hl. destruct (List.find _ p) as [q|] eqn:E; [|done].
  apply find_some in E as [Hin Hq]. apply bool_decide_eq_true in Hq.
  exfalso. apply Hl. rewrite <- Hq.
  apply list_elem_of_In, in_map, Hin.
Qed.

(** What the legend loop holds after the pairs [p]. *)
Lemma legend_loop {H} (p : list (H * string)) :
  forall hs ls seen,
  foldl legend_step ([], [], ∅) p = (hs, ls, seen) ->
  ls = first_occurrences (map snd p) /\
  length hs = length ls /\
  (forall l, is_Some (seen !! l) <-> l ∈ map snd p) /\
  (forall i l, ls !! i = Some l ->
     exists h, hs !! i = Some h /\
       List.find (fun q : H * string => bool_decide (q.2 = l)) p = Some (h, l)).
Proof.
  induction p as [|[h0 l0] p IH] using rev_ind; intros hs ls seen.
  - simpl. intros [= <- <- <-]. split; [done|]. split; [done|]. split.
    + intros l. rewrite lookup_empty. split; [by intros [? ?]|].
      by intros ?%elem_of_nil.
    + intros i l. by rewrite lookup_nil.
  - rewrite foldl_snoc.
    destruct (foldl legend_step ([], [], ∅) p) as [[hs0 ls0] seen0] eqn:E.
    destruct (IH hs0 ls0 seen0 eq_refl) as (Hls & Hlen & Hseen & Hfind).
    rewrite map_app. cbn [map snd]. rewrite first_occurrences_snoc.
    unfold legend_step. cbn [fst snd].
    destruct (seen0 !! l0) as [b|] eqn:El.
    + intros [= <- <- <-].
      assert (l0 ∈ map snd p) as Hin by (apply Hseen; eauto).
      rewrite decide_True by done.
      split; [done|]. split; [done|]. split.
      * intros l. rewrite Hseen, elem_of_app, list_elem_of_singleton.
        split; [tauto|]. intros [?| ->]; done.
      * intros i l Hi. destruct (Hfind i l Hi) as (h & Hh & Hf).
        exists h. split; [done|]. by rewrite find_snoc, Hf.
    + intros [= <- <- <-].
      assert (l0 ∉ map snd p) as Hin.
      { intros Hin%Hseen. rewrite El in Hin. by destruct Hin. }
      rewrite decide_False by done.
      split; [by rewrite Hls|]. split; [by rewrite !length_app, Hlen|]. split.
      * intros l. rewrite elem_of_app, list_elem_of_singleton, <- Hseen.
        destruct (decide (l = l0)) as [->|Hne].
        -- rewrite lookup_insert_eq. split; eauto.
        -- rewrite lookup_insert_ne by done. tauto.
      * intros i l Hi.
        destruct (decide (i < length ls0)%nat) as [Hlt|Hge].
        -- rewrite lookup_app_l in Hi by done.
           destruct (Hfind i l Hi) as (h & Hh & Hf).
           exists h. rewrite lookup_app_l by lia.
           split; [done|]. by rewrite find_snoc, Hf.
        -- rewrite lookup_app_r in Hi by lia.
           apply list_lookup_singleton_Some in Hi as [Hi <-].
           exists h0. split.
           ++ rewrite lookup_app_r by lia.
              by replace (i - length hs0)%nat with 0%nat by lia.
           ++ rewrite find_snoc, (find_label_None l0 p Hin). cbn [snd].
              by rewrite bool_decide_eq_true_2.
Qed.

(** X12.  The legend loop keeps one entry per label: the new labels are the
    labels of the curves, each once, in the order of first appearance; there
    are as many new handles, and the handle kept with a label is the handle
    of the first curve that carries it. *)
Theorem unique_legend_first_per_label {H : Type}
    (handles : list H) (labels : list string) :
  let pairs := zip handles labels in
  let out := unique_legend handles labels in
  out.2 = first_occurrences (map snd pairs) /\
  NoDup out.2 /\
  length out.1 = length out.2 /\
  (forall i l, out.2 !! i = Some l ->
     exists h, out.1 !! i = Some h /\
       List.find (fun q : H * string => bool_decide (q.2 = l)) pairs
       = Some (h, l)).
Proof.
  intros pairs out. unfold out, unique_legend. fold pairs.
  destruct (foldl legend_step ([], [], ∅) pairs) as [[hs ls] seen] eqn:E.
  destruct (legend_loop pairs hs ls seen E) as (Hls & Hlen & _ & Hfind).
  cbn [fst snd]. split; [done|]. split; [|split; [done|exact Hfind]].
  rewrite Hls. apply NoDup_first_occurrences.
Qed.

Lemma length_default_colors : length default_colors = 10%nat.
Proof. reflexivity. Qed.

Lemma frame_of_lists_columns (gs ds cs : list string) :
  length gs = length ds -> length ds = length cs ->
  exists rows, frame_of_lists gs ds cs = Ok rows /\
    map g_group rows = gs /\ map g_display_name rows = ds /\
    map g_color rows = cs.
Proof.
  intros H1 H2. unfold frame_of_lists. rewrite decide_True by done.
  eexists. split; [done|].
  revert ds cs H1 H2.
  induction gs as [|g gs IH]; intros [|d ds] [|c cs] H1 H2;
    try discriminate; [done|].
  simpl in H1, H2. destruct (IH ds cs) as (E1 & E2 & E3); [lia|lia|].
  simpl. by rewrite E1, E2, E3.
Qed.

(** X13.  The group table can be built exactly when there are at most ten
    groups, the number of default colours: it then lists the groups in
    order, each under its own name as display name and with the default
    colour of its rank; with more than ten groups the script stops with the
    error of columns of unequal length. *)
Theorem group_df_ten_colours (groups : list string) :
  ((length groups <= 10)%nat ->
     exists rows, group_df groups = Ok rows /\
       map g_group rows = groups /\ map g_display_name rows = groups /\
       map g_color rows = take (length groups) default_colors)
  /\ ((10 < length groups)%nat ->
     group_df groups
     = Err (ValueError "All arrays must be of the same length")).
Proof.
  unfold group_df. split; intros Hn.
  - apply frame_of_lists_columns; [done|].
    rewrite length_take, length_default_colors. lia.
  - unfold frame_of_lists. rewrite decide_False; [done|].
    rewrite length_take, length_default_colors. lia.
Qed.

Lemma finite_rows_groups (t : TidyTable) (df : list (Obs Q)) :
  finite_rows t = Some df -> map group df = map group (records t).
Proof.
  unfold finite_rows. intros H%mapM_Some.
  induction H as [|o q l k Hq _ IH]; [done|].
  simpl. rewrite IH. f_equal.
  unfold finite_obs in Hq.
  destruct (time o), (value o); try discriminate. by injection Hq as <-.
Qed.

Lemma aggregate_groups (df : list (Obs Q)) (interval_hours : option Q)
    (s : Stats) :
  s ∈ aggregate_mean_sd df interval_hours -> st_group s ∈ map group df.
Proof.
  intros [Hk _]%elem_of_agg.
  apply list_elem_of_In, in_map_iff in Hk as ([k v] & Hkv & Hin).
  apply in_map_iff in Hin as (o & Ho & Hin).
  apply list_elem_of_In, in_map_iff. exists o. split; [|done].
  change (st_group s) with (stats_key s).1. by rewrite <- Hkv, <- Ho.
Qed.

(** The merge with the group table as built, not edited: every row whose
    group is listed finds its own entry. *)
Lemma merge_unedited {A} (key : A -> string) (left : list A)
    (groups : list string) (gd : list GroupRow) :
  NoDup groups ->
  map g_group gd = groups -> map g_display_name gd = groups ->
  Forall (fun x => g_color x ∈ default_colors) gd ->
  Forall (fun r => key r ∈ groups) left ->
  exists out,
    merge_groups key left (unedited gd) = Ok out /\
    map fst out = left /\
    Forall (fun p : A * option EditedRow =>
              exists c, c ∈ default_colors /\
                p.2 = Some (mkEdited (Some (key p.1)) (Some (key p.1)) (Some c)))
           out.
Proof.
  intros Hnd Hg Hd Hc Hleft. unfold merge_groups.
  rewrite decide_True.
  2:{ unfold unedited. rewrite map_map. cbn [e_group].
      rewrite <- (map_map g_group Some), Hg, map_fmap.
      apply NoDup_fmap_2; [|done]. by intros x y [= ->]. }
  eexists. split; [done|]. split.
  - rewrite map_map. cbn [fst]. apply map_id.
  - apply Forall_map. eapply Forall_impl; [exact Hleft|].
    intros r Hr. cbn [fst snd].
    destruct (List.find _ (unedited gd)) as [e|] eqn:E.
    + apply find_some in E as [Hin He]. apply bool_decide_eq_true in He.
      apply in_map_iff in Hin as (x & <- & Hx). cbn [e_group] in He.
      injection He as He.
      assert (g_display_name x = g_group x) as Hdx.
      { assert (map g_display_name gd = map g_group gd) as Hm by congruence.
        by apply (proj1 map_ext_in_iff Hm). }
      exists (g_color x). split.
      * apply (proj1 (Forall_forall _ _) Hc). by apply list_elem_of_In.
      * by rewrite Hdx, He.
    + exfalso. rewrite <- Hg in Hr.
      apply list_elem_of_In, in_map_iff in Hr as (x & Hx & Hin).
      pose proof (find_none _ _ E
                    (mkEdited (Some (g_group x)) (Some (g_display_name x))
                              (Some (g_color x)))) as Hn.
      cbn [e_group] in Hn. rewrite Hx, bool_decide_eq_true_2 in Hn by done.
      assert (true = false) as Hfalse; [|discriminate Hfalse].
      apply Hn. unfold unedited. apply in_map_iff.
      exists x. split; [by rewrite Hx|done].
Qed.

(** X14.  From the reader to the merge: for a table of the tidy layout with
    at most ten groups, the group table as the script builds it, left as it
    is in the editor, gives every row of the stats table and every record of
    the table its own entry, with the group as display name and one of the
    default colours.  Both merges succeed and keep the rows in order. *)
Theorem unedited_table_names_every_row
    (t : TidyTable) (df : list (Obs Q)) (interval_hours : option Q) :
  finite_rows t = Some df ->
  group_categories t = None ->
  (length (unique_groups t) <= 10)%nat ->
  exists gd stats tidy_merged,
    group_df (unique_groups t) = Ok gd /\
    merge_groups st_group (aggregate_mean_sd df interval_hours) (unedited gd)
    = Ok stats /\
    merge_groups group df (unedited gd) = Ok tidy_merged /\
    map fst stats = aggregate_mean_sd df interval_hours /\
    map fst tidy_merged = df /\
    Forall (fun p =>
              exists c, c ∈ default_colors /\
                p.2 = Some (mkEdited (Some (st_group p.1)) (Some (st_group p.1))
                                     (Some c)))
           stats /\
    Forall (fun p =>
              exists c, c ∈ default_colors /\
                p.2 = Some (mkEdited (Some (group p.1)) (Some (group p.1))
                                     (Some c)))
           tidy_merged.
Proof.
  intros Hfin _ Hten.
  pose proof (finite_rows_groups t df Hfin) as Hgroups.
  destruct (frame_of_lists_columns (unique_groups t) (unique_groups t)
              (take (length (unique_groups t)) default_colors))
    as (gd & Hgd & Hg & Hd & Hc);
    [done | rewrite length_take, length_default_colors; lia |].
  assert (NoDup (unique_groups t)) as Hnd by apply NoDup_first_occurrences.
  assert (Forall (fun x => g_color x ∈ default_colors) gd) as Hcol.
  { apply Forall_forall. intros x Hx.
    assert (g_color x ∈ take (length (unique_groups t)) default_colors) as Hin.
    { rewrite <- Hc. apply list_elem_of_In, in_map, list_elem_of_In, Hx. }
    rewrite <- (take_drop (length (unique_groups t)) default_colors).
    apply elem_of_app. by left. }
  destruct (merge_unedited st_group (aggregate_mean_sd df interval_hours)
              (unique_groups t) gd Hnd Hg Hd Hcol)
    as (stats & Hs1 & Hs2 & Hs3).
  { apply Forall_forall. intros s Hs%aggregate_groups.
    unfold unique_groups. apply elem_of_first_occurrences.
    by rewrite <- Hgroups. }
  destruct (merge_unedited group df (unique_groups t) gd Hnd Hg Hd Hcol)
    as (tm & Ht1 & Ht2 & Ht3).
  { apply Forall_forall. intros o Ho.
    unfold unique_groups. apply elem_of_first_occurrences.
    rewrite <- Hgroups. apply list_elem_of_In, in_map, list_elem_of_In, Ho. }
  exists gd, stats, tm. by repeat (split; [done|]).
Qed.

Lemma unedited_table_names_every_row_witness :
  exists gd stats tidy_merged,
    group_df ["A"; "B"] = Ok gd /\
    merge_groups st_group
      (aggregate_mean_sd
         [mkObs 0%Q "A" "R1" 1%Q; mkObs 0%Q "B" "R1" 2%Q;
          mkObs 0%Q "A" "R2" 3%Q] None)
      (unedited gd) = Ok stats /\
    merge_groups group
      [mkObs 0%Q "A" "R1" 1%Q; mkObs 0%Q "B" "R1" 2%Q; mkObs 0%Q "A" "R2" 3%Q]
      (unedited gd) = Ok tidy_merged /\
    map fst stats
    = aggregate_mean_sd
        [mkObs 0%Q "A" "R1" 1%Q; mkObs 0%Q "B" "R1" 2%Q;
         mkObs 0%Q "A" "R2" 3%Q] None /\
    map fst tidy_merged
    = [mkObs 0%Q "A" "R1" 1%Q; mkObs 0%Q "B" "R1" 2%Q; mkObs 0%Q "A" "R2" 3%Q] /\
    Forall (fun p : Stats * option EditedRow =>
              exists c, c ∈ default_colors /\
                p.2 = Some (mkEdited (Some (st_group p.1)) (Some (st_group p.1))
                                     (Some c)))
           stats /\
    Forall (fun p : Obs Q * option EditedRow =>
              exists c, c ∈ default_colors /\
                p.2 = Some (mkEdited (Some (group p.1)) (Some (group p.1))
                                     (Some c)))
           tidy_merged.
Proof.
  apply (unedited_table_names_every_row
           (mkTidy None
              [mkObs (Fin 0%Q) "A" "R1" (Fin 1%Q);
               mkObs (Fin 0%Q) "B" "R1" (Fin 2%Q);
               mkObs (Fin 0%Q) "A" "R2" (Fin 3%Q)])
           [mkObs 0%Q "A" "R1" 1%Q; mkObs 0%Q "B" "R1" 2%Q;
            mkObs 0%Q "A" "R2" 3%Q]
           None).
  - reflexivity.
  - reflexivity.
  - vm_compute. lia.
Defined.

(** ** The order of the group table in the wide layout *)

Lemma filter_length_all {A} (P : A -> Prop) `{forall x, Decision (P x)}
    (l : list A) :
  length (filter P l) = length l -> filter P l = l.
Proof.
  induction l as [|x l IH]; [done|].
  destruct (decide (P x)) as [Hx|Hx].
  - rewrite filter_cons_True by done. simpl. intros [= E]. by rewrite IH.
  - rewrite filter_cons_False by done. simpl. intros E.
    pose proof (length_filter P l). lia.
Qed.

Lemma map_zip_with_r {A B C D} (f : A -> B -> C) (g : C -> D) (h : B -> D)
    (xs : list A) (ys : list B) :
  (forall x y, g (f x y) = h y) -> length xs = length ys ->
  map g (zip_with f xs ys) = map h ys.
Proof.
  intros Hf. revert ys.
  induction xs as [|x xs IH]; intros [|y ys] Hlen; try discriminate; [done|].
  simpl. rewrite Hf, IH; [done|]. simpl in Hlen. lia.
Qed.

Lemma wide_long_groups (i : nat) (data : list (list cell))
    (L : list (nat * string)) :
  map (fun r => wide_group (l_col r))
      (flat_map (fun jc : nat * string =>
                   map (fun r => mkLong (cell_at i r) jc.2 (cell_at jc.1 r))
                       data) L)
  = flat_map (fun jc : nat * string => map (fun _ => wide_group jc.2) data) L.
Proof.
  induction L as [|jc L IH]; [done|].
  simpl. by rewrite map_app, map_map, IH.
Qed.

Lemma first_occurrences_block {B} (a : string) (data : list B)
    (l : list string) :
  data <> [] ->
  first_occurrences (map (fun _ => a) data ++ l)
  = a :: filter (fun y => y ≠ a) (first_occurrences l).
Proof.
  intros Hne. destruct data as [|d data]; [done|]. clear Hne.
  revert d. induction data as [|d' data IH]; intros d; [done|].
  change (first_occurrences (map (fun _ => a) (d :: d' :: data) ++ l))
    with (a :: filter (fun y => y ≠ a)
                 (first_occurrences (map (fun _ => a) (d' :: data) ++ l))).
  rewrite (IH d'). f_equal.
  rewrite filter_cons_False by (intros H; by apply H).
  apply filter_all. intros y Hy. by apply list_elem_of_filter in Hy as [? _].
Qed.

Lemma first_occurrences_blocks {A B} (g : A -> string) (data : list B)
    (L : list A) :
  data <> [] ->
  first_occurrences (flat_map (fun x => map (fun _ => g x) data) L)
  = first_occurrences (map g L).
Proof.
  intros Hne. induction L as [|x L IH]; [done|].
  cbn [flat_map map]. rewrite first_occurrences_block by done.
  by rewrite IH.
Qed.

Lemma map_snd_filter_zip (P : string -> Prop) `{forall x, Decision (P x)}
    (l : list string) (s : nat) :
  map snd (filter (fun jc : nat * string => P jc.2) (zip (seq s (length l)) l))
  = filter P l.
Proof.
  revert s. induction l as [|c l IH]; intros s; [done|].
  cbn [length seq zip zip_with].
  destruct (decide (P c)) as [Hc|Hc].
  - rewrite !filter_cons_True by done. simpl. by rewrite IH.
  - rewrite !filter_cons_False by done. by rewrite IH.
Qed.

Lemma filter_rename_time (cols : list string) (time_col : string) i :
  positions "time" (rename_label time_col "time" cols) = [i] ->
  filter (fun c => c ∈ filter (fun c' => c' ≠ time_col) cols)
         (rename_label time_col "time" cols)
  = filter (fun c => c ≠ time_col) cols.
Proof.
  intros Hpos.
  assert (forall l, (forall x, x ∈ l -> x ∈ cols) ->
            filter (fun c => c ∈ filter (fun c' => c' ≠ time_col) cols)
                   (rename_label time_col "time" l)
            = filter (fun c => c ≠ time_col) l) as Hgen.
  { induction l as [|x l IH]; intros Hsub; [done|].
    assert (x ∈ cols) as [j Hj]%list_elem_of_lookup
      by (apply Hsub, elem_of_cons; by left).
    pose proof (wide_series_position cols time_col i j x Hpos Hj) as Hx.
    specialize (IH (fun y Hy => Hsub y (proj2 (elem_of_cons _ _ _) (or_intror Hy)))).
    cbn [rename_label map]. fold (rename_label time_col "time" l).
    destruct (decide (x ≠ time_col)) as [Hne|Heq].
    - rewrite (filter_cons_True (fun c => c ≠ time_col)) by done.
      rewrite filter_cons_True by tauto.
      rewrite IH. by rewrite decide_False by done.
    - rewrite (filter_cons_False (fun c => c ≠ time_col)) by done.
      rewrite filter_cons_False by tauto. exact IH. }
  by apply Hgen.
Qed.

(** X15.  In the wide layout, when the table has a row and no record is
    dropped, the order in which the script lists the groups, the order of
    first appearance among the records, is the order of the categories, that
    is, of the header. *)
Theorem wide_display_order_is_header_order
    (to_float : string -> float) (float_str : float -> string)
    (df : DataFrame) (t : TidyTable) :
  detect_layout (columns df) = WIDE ->
  read_incucyte_csv to_float float_str df = Ok t ->
  rows df <> [] ->
  length (records t) = source_records df ->
  group_categories t = Some (unique_groups t).
Proof.
  intros Hl Hr Hrows Hall.
  unfold read_incucyte_csv in Hr. rewrite Hl in Hr.
  destruct (read_wide_Ok _ _ _ _ Hr)
    as (time_col & long & Hlm & Hmelt & Hcat & Hrec).
  apply melt_Ok in Hmelt as (_ & i & Hpos & Hlong).
  unfold source_records in Hall. rewrite Hl, Hlm in Hall.
  assert (length long
          = (length (filter (fun c => c ≠ time_col) (columns df))
             * length (rows df))%nat) as Hlen.
  { rewrite Hlong.
    rewrite (length_flat_map_const _ (length (rows df)))
      by (intros; by rewrite length_map).
    by rewrite (wide_series_count _ _ i). }
  rewrite Hrec in Hall.
  rewrite <- Hlen in Hall.
  rewrite <- (length_zip_with_r_eq
                (fun x (r : LongRow) =>
                   mkObs x (wide_group (l_col r)) (wide_replicate (l_col r))
                         (to_numeric to_float (l_value r)))
                (_coerce_time to_float float_str (map l_time long)) long)
    in Hall by (by rewrite length_coerce_time, length_map).
  apply filter_length_all in Hall.
  rewrite Hcat. f_equal. unfold unique_groups. rewrite Hrec, Hall.
  rewrite (map_zip_with_r _ group (fun r => wide_group (l_col r)))
    by (by rewrite ?length_coerce_time, ?length_map).
  rewrite Hlong, wide_long_groups.
  rewrite (first_occurrences_blocks
             (fun jc : nat * string => wide_group jc.2)) by done.
  rewrite <- (map_map snd wide_group).
  unfold indexed.
  match goal with
  | |- context [map snd ?L] =>
      assert (map snd L = filter (fun c => c ≠ time_col) (columns df)) as ->
  end.
  { etrans; [|exact (filter_rename_time _ _ i Hpos)].
    exact (map_snd_filter_zip
             (fun c => c ∈ filter (fun c' => c' ≠ time_col) (columns df))
             (rename_label time_col "time" (columns df)) 0). }
  apply group_order_spec.
Qed.

Lemma wide_display_order_is_header_order_witness :
  group_categories
    (mkTidy (Some ["A"; "B"])
            [mkObs (Fin 0%Q) "A" "R1" (Fin 1%Q);
             mkObs (Fin 0%Q) "B" "R1" (Fin 2%Q);
             mkObs (Fin 0%Q) "A" "R2" (Fin 3%Q)])
  = Some (unique_groups
            (mkTidy (Some ["A"; "B"])
                    [mkObs (Fin 0%Q) "A" "R1" (Fin 1%Q);
                     mkObs (Fin 0%Q) "B" "R1" (Fin 2%Q);
                     mkObs (Fin 0%Q) "A" "R2" (Fin 3%Q)])).
Proof.
  apply (wide_display_order_is_header_order plain_decimal plain_str
           (mkFrame ["Time"; "A_R1"; "B"; "A_R2"]
                    [[CInt 0; CInt 1; CInt 2; CInt 3]])).
  - reflexivity.
  - reflexivity.
  - discriminate.
  - reflexivity.
Defined.

(** ** The statistics of a row *)







